(** * Scrapink card scraper: a shallow embedding of [scrape_pokecardex.py]

    The script fetches the pages of a paginated card listing, extracts one
    record per card through CSS selectors, and exports the records to a CSV
    file and, optionally, to a hosted spreadsheet.

    Layout of this development:
    - [Py]: the parts of the Python runtime the script relies on (text as
      sequences of code points, [str.replace], [str.strip], the regular
      expression of the price pattern, [float] on decimal numerals);
    - [Csv]: the writer and the reader of the standard [csv] module in
      their default dialect;
    - the scraper itself, function by function, over an abstract document
      interface ([Dom]) for BeautifulSoup and an explicit world for the
      network, the file system, the console and the spreadsheet service;
    - the properties. *)

From Stdlib Require Import ZArith NArith List String Ascii Lia Bool.
From Stdlib.Floats Require Import SpecFloat.
From stdpp Require Import base option list gmap.
Import ListNotations.

Local Open Scope Z_scope.

(* ===================================================================== *)
(** * The Python runtime                                                  *)
(* ===================================================================== *)

Module Py.

(** A Python [str] is a sequence of Unicode code points. *)
Abbreviation char := N (only parsing).
Abbreviation text := (list N) (only parsing).

(** ASCII literals: every byte of the Rocq string is one code point. The
    two non-ASCII characters of the script are named constants. *)
Fixpoint py (s : string) : text :=
  match s with
  | EmptyString => []
  | String a s' => N_of_ascii a :: py s'
  end.

Definition EURO : char := 8364%N.       (* U+20AC, the currency sign *)
Definition NBSP : char := 160%N.        (* U+00A0, "\xa0" *)
Definition SPACE : char := 32%N.
Definition COMMA : char := 44%N.
Definition MINUS : char := 45%N.
Definition PERIOD : char := 46%N.
Definition QUOTE : char := 34%N.
Definition CR : char := 13%N.
Definition LF : char := 10%N.

(** The code points UTF-8 cannot encode: a [str] may hold lone surrogates,
    and writing one to a file opened with the utf-8 encoding raises
    [UnicodeEncodeError]. *)
Definition surrogate (c : char) : bool := ((55296 <=? c) && (c <=? 57343))%N.

Definition encodable (s : text) : bool := forallb (fun c => negb (surrogate c)) s.

(** Truthiness of a [str]: the empty string is false. *)
Definition truthy (s : text) : bool :=
  match s with [] => false | _ :: _ => true end.

(** Truthiness of an [Optional[str]]. *)
Definition truthy_opt (o : option text) : bool :=
  match o with None => false | Some s => truthy s end.

(** [s.replace(old, new)] where [old] is a single code point, which is the
    case of the three calls of the script. *)
Definition replace (old : char) (new : text) (s : text) : text :=
  flat_map (fun c => if N.eqb c old then new else [c]) s.

(** [str.isspace] on one code point (the table of [_PyUnicode_IsWhitespace]). *)
Definition is_space (c : char) : bool :=
  ((9 <=? c) && (c <=? 13) || (28 <=? c) && (c <=? 32)
   || (c =? 133) || (c =? 160) || (c =? 5760)
   || (8192 <=? c) && (c <=? 8202)
   || (c =? 8232) || (c =? 8233) || (c =? 8239) || (c =? 8287)
   || (c =? 12288))%N.

Fixpoint lstrip (s : text) : text :=
  match s with
  | [] => []
  | c :: s' => if is_space c then lstrip s' else s
  end.

Definition rstrip (s : text) : text := rev (lstrip (rev s)).

(** [s.strip()] *)
Definition strip (s : text) : text := rstrip (lstrip s).

(** The Unicode character database: the decimal-digit value of a code
    point, [unicodedata.decimal]. [\d] in a [str] pattern and [float] both
    go through it. The table depends on the Unicode version of the
    interpreter, so it is a parameter; its ASCII part is fixed. *)
Class UnicodeData := {
  decimal : char -> option N;
  decimal_ascii : forall c, (c < 128)%N ->
    decimal c = if ((48 <=? c) && (c <=? 57))%N then Some (c - 48)%N else None;
  decimal_range : forall c d, decimal c = Some d -> (d < 10)%N
}.

(** The database restricted to ASCII, the smallest instance. *)
Definition ascii_decimal (c : char) : option N :=
  if ((48 <=? c) && (c <=? 57))%N then Some (c - 48)%N else None.

Section Regex.
Context `{UnicodeData}.

(** [\d] *)
Definition is_digit (c : char) : bool :=
  match decimal c with Some _ => true | None => false end.

(** [\d*] at the head of [s], greedy: the digits and the rest. *)
Fixpoint span_digits (s : text) : text * text :=
  match s with
  | [] => ([], [])
  | c :: s' =>
      if is_digit c
      then let '(ds, rest) := span_digits s' in (c :: ds, rest)
      else ([], s)
  end.

(** [\d+(?:\.\d+)?] anchored at the head of [s]. Both quantifiers are
    greedy, and what follows them can match the empty string, so the
    first alternative that succeeds takes every digit, and the fraction
    whenever a period followed by a digit is there. *)
Definition match_unsigned (s : text) : option text :=
  match span_digits s with
  | ([], _) => None
  | (ds, rest) =>
      match rest with
      | c :: rest' =>
          if N.eqb c PERIOD then
            match span_digits rest' with
            | ([], _) => Some ds
            | (fs, _) => Some (ds ++ PERIOD :: fs)
            end
          else Some ds
      | [] => Some ds
      end
  end.

(** [-?\d+(?:\.\d+)?] anchored at the head of [s]: the sign is tried
    first; when no digit follows it the engine backtracks to the empty
    sign, which fails as well since a minus is not a digit. *)
Definition match_here (s : text) : option text :=
  match s with
  | c :: s' =>
      if N.eqb c MINUS then
        match match_unsigned s' with
        | Some m => Some (MINUS :: m)
        | None => match_unsigned s
        end
      else match_unsigned s
  | [] => match_unsigned s
  end.

(** [re.search(r"(-?\d+(?:\.\d+)?)", s)], group 1: the match at the
    leftmost position where the pattern matches. *)
Fixpoint re_search (s : text) : option text :=
  match match_here s with
  | Some m => Some m
  | None =>
      match s with
      | [] => None
      | _ :: s' => re_search s'
      end
  end.
End Regex.

(** ** Floats *)

(** A Python [float] is an IEEE 754 binary64 value. *)
Definition float : Type := spec_float.

(** The binary64 value nearest to [p / q] (ties to even), with sign [neg],
    for [0 <= p] and [0 < q]. The quotient is taken with 56 bits or more
    and a sticky bit, then rounded by the format's rounding. *)
Definition round_ratio (neg : bool) (p q : Z) : float :=
  if p =? 0 then S754_zero neg
  else
    let s := 56 - Z.log2 p + Z.log2 q in
    let num := if 0 <=? s then p * 2 ^ s else p in
    let den := if 0 <=? s then q else q * 2 ^ (- s) in
    let m := 2 * (num / den) + (if num mod den =? 0 then 0 else 1) in
    binary_normalize 53 1024 (if neg then - m else m) (- s - 1) false.

Section Float.
Context `{UnicodeData}.

(** The digit values of a run of decimal digits; [None] when a code
    point is not a decimal digit. *)
Fixpoint digit_values (s : text) : option (list Z) :=
  match s with
  | [] => Some []
  | c :: s' =>
      match decimal c, digit_values s' with
      | Some d, Some ds => Some (Z.of_N d :: ds)
      | _, _ => None
      end
  end.

Definition number_of (ds : list Z) : Z :=
  fold_left (fun acc d => 10 * acc + d) ds 0.

(** Splits [s] at its first period. *)
Fixpoint split_period (s : text) : text * option text :=
  match s with
  | [] => ([], None)
  | c :: s' =>
      if N.eqb c PERIOD then ([], Some s')
      else let '(a, b) := split_period s' in (c :: a, b)
  end.

(** The float of an unsigned numeral [digits (. digits?)? | . digits] with
    the sign [neg]: the nearest to the number the digits write. *)
Definition float_of_numeral (neg : bool) (body : text) : option float :=
  let '(ip, fp) := split_period body in
  let fs := match fp with Some fs => fs | None => [] end in
  match ip ++ fs, digit_values ip, digit_values fs with
  | _ :: _, Some ds, Some es =>
      Some (round_ratio neg (number_of (ds ++ es))
                        (10 ^ Z.of_nat (length es)))
  | _, _, _ => None
  end.

(** [float(s)] on a numeral with an optional sign, which covers the shape
    the price pattern matches; [None] stands for [ValueError]. Numerals
    with an exponent or underscores, surrounding blanks and the spelled-out
    infinities never reach this call and are outside the model. *)
Definition py_float (s : text) : option float :=
  match s with
  | c :: s' =>
      if N.eqb c MINUS then float_of_numeral true s'
      else if N.eqb c 43 then float_of_numeral false s'
      else float_of_numeral false s
  | [] => float_of_numeral false s
  end.
End Float.

End Py.

(* ===================================================================== *)
(** * The [csv] module, default dialect                                   *)
(* ===================================================================== *)

(** Comma delimiter, double-quote quote character written twice inside a
    quoted field, no escape character, line terminator CR LF, minimal quoting, blanks kept. *)
Module Csv.
Import Py.

(** ** Writer *)

(** The characters that make the writer quote a field: the delimiter, the
    quote character and the characters of the line terminator. *)
Definition special (c : char) : bool :=
  (N.eqb c COMMA || N.eqb c QUOTE || N.eqb c CR || N.eqb c LF)%bool.

(** The quote character is written twice. *)
Definition escape (field : text) : text :=
  flat_map (fun c => if N.eqb c QUOTE then [QUOTE; QUOTE] else [c]) field.

Definition format_field (field : text) : text :=
  if existsb special field then QUOTE :: escape field ++ [QUOTE] else field.

Fixpoint join (fields : list text) : text :=
  match fields with
  | [] => []
  | [f] => f
  | f :: fs => f ++ COMMA :: join fs
  end.

(** [writer.writerow(fields)], the text appended to the file. A record made
    of one empty field is written as a pair of quotes. *)
Definition writerow (fields : list text) : text :=
  match fields with
  | [[]] => [QUOTE; QUOTE; CR; LF]
  | _ => join (map format_field fields) ++ [CR; LF]
  end.

(** ** Reader *)

(** Iteration over a text file opened with newline set to the empty string: a line ends after
    LF, after CR LF, or after a CR that no LF follows; the line keeps its
    ending. *)
Fixpoint lines_from (cur : text) (s : text) : list text :=
  match s with
  | [] => match cur with [] => [] | _ => [cur] end
  | c :: s' =>
      if N.eqb c LF then (cur ++ [c]) :: lines_from [] s'
      else if N.eqb c CR then
        match s' with
        | d :: _ =>
            if N.eqb d LF then lines_from (cur ++ [c]) s'
            else (cur ++ [c]) :: lines_from [] s'
        | [] => [cur ++ [c]]
        end
      else lines_from (cur ++ [c]) s'
  end.

Definition lines (s : text) : list text := lines_from [] s.

(** What the parser is fed: the characters of each line, then an
    end-of-line mark. *)
Inductive sym := Chr (c : char) | EOL.

Definition feed (ls : list text) : list sym :=
  flat_map (fun l => map Chr l ++ [EOL]) ls.

(** The states of [parse_process_char] that the default dialect can reach
    (there is no escape character). *)
Inductive pstate :=
| START_RECORD | START_FIELD | IN_FIELD
| IN_QUOTED_FIELD | QUOTE_IN_QUOTED_FIELD | EAT_CRNL.

Record reader := {
  state : pstate;
  field : text;             (* the field being read *)
  fields : list text        (* the fields of the record read so far *)
}.

Definition parse_reset : reader :=
  {| state := START_RECORD; field := []; fields := [] |}.

Definition parse_save_field (r : reader) (st : pstate) : reader :=
  {| state := st; field := []; fields := fields r ++ [field r] |}.

Definition set_state (r : reader) (st : pstate) : reader :=
  {| state := st; field := field r; fields := fields r |}.

Definition is_newline (c : char) : bool := (N.eqb c LF || N.eqb c CR)%bool.

Definition is_start_record (st : pstate) : bool :=
  match st with START_RECORD => true | _ => false end.

Definition is_in_quoted (st : pstate) : bool :=
  match st with IN_QUOTED_FIELD => true | _ => false end.

(** [csv.field_size_limit()] as long as the program that reads has not set
    another value: 128 * 1024 characters. *)
Definition default_field_limit : N := 131072.

Section Reader.

(** The field size limit of the module, [csv.field_size_limit()]. *)
Variable field_limit : N.

(** [parse_add_char]: a character is added to the field being read unless
    the field already holds [field_limit] characters, in which case the
    reader raises [csv.Error]; [st] is the state the parser goes to once the
    character is added. *)
Definition parse_add_char (r : reader) (c : char) (st : pstate) : option reader :=
  if (field_limit <=? N.of_nat (length (field r)))%N then None
  else Some {| state := st; field := field r ++ [c]; fields := fields r |}.

Definition start_field (r : reader) (x : sym) : option reader :=
  match x with
  | EOL => Some (parse_save_field r START_RECORD)
  | Chr c =>
      if is_newline c then Some (parse_save_field r EAT_CRNL)
      else if N.eqb c QUOTE then Some (set_state r IN_QUOTED_FIELD)
      else if N.eqb c COMMA then Some (parse_save_field r START_FIELD)
      else parse_add_char r c IN_FIELD
  end.

(** [parse_process_char]; [None] stands for [csv.Error]. *)
Definition parse_process_char (r : reader) (x : sym) : option reader :=
  match state r with
  | START_RECORD =>
      match x with
      | EOL => Some r
      | Chr c =>
          if is_newline c then Some (set_state r EAT_CRNL)
          else start_field r x
      end
  | START_FIELD => start_field r x
  | IN_FIELD =>
      match x with
      | EOL => Some (parse_save_field r START_RECORD)
      | Chr c =>
          if is_newline c then Some (parse_save_field r EAT_CRNL)
          else if N.eqb c COMMA then Some (parse_save_field r START_FIELD)
          else parse_add_char r c IN_FIELD
      end
  | IN_QUOTED_FIELD =>
      match x with
      | EOL => Some r
      | Chr c =>
          if N.eqb c QUOTE then Some (set_state r QUOTE_IN_QUOTED_FIELD)
          else parse_add_char r c IN_QUOTED_FIELD
      end
  | QUOTE_IN_QUOTED_FIELD =>
      match x with
      | EOL => Some (parse_save_field r START_RECORD)
      | Chr c =>
          if N.eqb c QUOTE then parse_add_char r c IN_QUOTED_FIELD
          else if N.eqb c COMMA then Some (parse_save_field r START_FIELD)
          else if is_newline c then Some (parse_save_field r EAT_CRNL)
          else parse_add_char r c IN_FIELD
      end
  | EAT_CRNL =>
      match x with
      | EOL => Some (set_state r START_RECORD)
      | Chr c => if is_newline c then Some r else None
      end
  end.

(** The records the reader yields. A record is complete when an
    end-of-line mark leaves the parser at the start of a record; when the
    input ends inside a record its last field is saved if there is one. *)
Fixpoint records (r : reader) (input : list sym) : option (list (list text)) :=
  match input with
  | [] =>
      if (negb (is_start_record (state r))
          && (match field r with [] => false | _ => true end
              || is_in_quoted (state r)))%bool
      then Some [fields r ++ [field r]]
      else Some []
  | x :: input' =>
      match parse_process_char r x with
      | None => None
      | Some r' =>
          match x with
          | EOL =>
              if is_start_record (state r')
              then option_map (cons (fields r')) (records parse_reset input')
              else records r' input'
          | Chr _ => records r' input'
          end
      end
  end.

(** [list(csv.reader(f))] for a file [f] holding [s], as of Python 3.11
    (older readers reject the NUL character); [None] stands for
    [csv.Error]. *)
Definition read (s : text) : option (list (list text)) :=
  records parse_reset (feed (lines s)).

End Reader.

End Csv.

(* ===================================================================== *)
(** * The scraper                                                         *)
(* ===================================================================== *)

Import Py.

(** ** Data *)

(** Card information extracted from a collection page. *)
Record Card := {
  name : text;
  price : option float;
  image_url : text
}.

(** CSS selectors for locating elements on the pages. *)
Module Selectors.
Record t := {
  card : text;          (* container for a single card *)
  name : text;
  price : text;
  image : text;
  next_page : text
}.

Definition default : t :=
  {| card := py "div.card";
     name := py ".card__title";
     price := py ".card__price";
     image := py "img.card__image";
     next_page := py "a[rel='next']" |}.
End Selectors.

(** ** BeautifulSoup *)

(** The document interface the script uses, on parsed pages and on the
    tags inside them:
    - [select n sel] is [n.select(sel)], the tags below [n] that match the
      CSS selector, in document order (the selector is taken to be well
      formed);
    - [get n key] is [n.get(key)], the value of the attribute, [None] when
      the tag does not carry it;
    - [get_text n] is [n.get_text(strip=True)]. *)
Class Dom (node : Type) := {
  select : node -> text -> list node;
  get : node -> text -> option text;
  get_text : node -> text
}.

(** [n.select_one(sel)] is the first tag of [n.select(sel)], if any. *)
Definition select_one {node} `{Dom node} (n : node) (sel : text) : option node :=
  head (select n sel).

(** [a or b] on values that are strings or [None]. *)
Definition or_else (a : option text) (b : option text) : option text :=
  if truthy_opt a then a else b.

(** ** Effects *)

Inductive exn :=
| ConnectionError          (* [session.get]: timeout, connection failure *)
| HTTPError (status : Z)   (* [raise_for_status] *)
| SleepError               (* [time.sleep]: negative or out of range *)
| OSError                  (* [open] *)
| UnicodeEncodeError       (* writing text that utf-8 cannot encode *)
| RuntimeError             (* the spreadsheet libraries are not installed *)
| SystemExit               (* the credentials option is missing *)
| SheetError.              (* a call to the spreadsheet service fails *)

(** What a GET request comes back with: the final response, after the
    redirections the session follows on its own. *)
Inductive response (node : Type) :=
| NoResponse                               (* the request itself raises *)
| Response (status_code : Z) (soup : node) (* status and parsed body *).
Arguments NoResponse {node}.
Arguments Response {node} status_code soup.

Inductive event :=
| Fetch (url : text)       (* one GET request *)
| Sleep (seconds : float). (* one inter-page pause *)

(** A cell of a row sent to a writer or to the spreadsheet. *)
Inductive cell := Str (s : text) | Num (x : float).

Inductive line :=
| Wrote (n : nat) (path : text)
| Uploaded (n : nat) (spreadsheet_id worksheet : text).

(** What the run can change. *)
Record world := {
  files : gmap text text;                      (* path to content *)
  console : list line;                         (* what was printed *)
  log : list event;                            (* requests and pauses *)
  sheets : gmap (text * text) (list (list cell)) (* worksheet contents *)
}.

(** How a call that changes a worksheet ends. The service carries it out
    and answers; or the call is refused (by the client before anything is
    sent, or by the service) and raises with nothing changed; or the service
    carries it out and the answer never arrives, so that the call raises
    although the worksheet has changed. *)
Inductive reply := Done | Refused | Lost.

(** What the run can only observe. *)
Record env (node : Type) := {
  site : text -> response node;    (* the site, as a snapshot *)
  sleep_ok : float -> bool;        (* whether [time.sleep] accepts it *)
  float_str : float -> text;       (* [str] of a float *)
  can_open : text -> bool;         (* whether the path can be opened for writing *)
  gspread_installed : bool;        (* whether the optional imports succeeded *)
  sheet_ok : text -> text -> text -> bool;
    (* credentials path, spreadsheet id, worksheet: whether the credentials
       load, the service lets the client in and the worksheet is found *)
  clear_reply : text -> text -> reply;
    (* spreadsheet id, worksheet: how [ws.clear()] ends *)
  append_reply : text -> text -> list (list cell) -> reply
    (* spreadsheet id, worksheet, rows: how [ws.append_rows(rows)] ends *)
}.
Arguments site {node}.
Arguments sleep_ok {node}.
Arguments float_str {node}.
Arguments can_open {node}.
Arguments gspread_installed {node}.
Arguments sheet_ok {node}.
Arguments clear_reply {node}.
Arguments append_reply {node}.

(** A computation returns, raises, or is still running when the fuel of a
    loop is spent. *)
Inductive result (A : Type) :=
| Ok (a : A)
| Raise (e : exn)
| Running.
Arguments Ok {A}.
Arguments Raise {A}.
Arguments Running {A}.

Definition M (A : Type) : Type := world -> result A * world.

Definition ret {A} (a : A) : M A := fun w => (Ok a, w).

Definition raise {A} (e : exn) : M A := fun w => (Raise e, w).

Definition bind {A B} (m : M A) (k : A -> M B) : M B :=
  fun w =>
    match m w with
    | (Ok a, w') => k a w'
    | (Raise e, w') => (Raise e, w')
    | (Running, w') => (Running, w')
    end.

Notation "'do' x <- m ; k" := (bind m (fun x => k))
  (at level 10, x name, m at level 100, k at level 200).
Notation "m ;; k" := (bind m (fun _ => k))
  (at level 100, k at level 200, right associativity).

Definition emit (e : event) : M unit :=
  fun w => (Ok tt, {| files := files w; console := console w;
                      log := log w ++ [e]; sheets := sheets w |}).

Definition print (l : line) : M unit :=
  fun w => (Ok tt, {| files := files w; console := console w ++ [l];
                      log := log w; sheets := sheets w |}).

(** [for x in xs: body x] *)
Fixpoint for_each {A} (xs : list A) (body : A -> M unit) : M unit :=
  match xs with
  | [] => ret tt
  | x :: xs' => body x ;; for_each xs' body
  end.

(** ** The functions of the script *)

Section Scraper.
Context `{UnicodeData} {node : Type} `{Dom node}.
Variable E : env node.

Definition normalize_price (raw : text) : option float :=
  let cleaned := strip (replace NBSP [SPACE] (replace EURO [] raw)) in
  let cleaned := replace COMMA [PERIOD] cleaned in
  match re_search cleaned with
  | None => None
  | Some m =>
      match py_float m with
      | Some x => Some x
      | None => None       (* except ValueError *)
      end
  end.

Definition extract_text (n : node) (selector : text) : text :=
  match select_one n selector with
  | None => []
  | Some target => get_text target
  end.

Definition extract_image (n : node) (selector : text) : text :=
  match select_one n selector with
  | None => []
  | Some target =>
      match or_else (or_else (get target (py "src"))
                             (get target (py "data-src")))
                    (Some [])
      with
      | Some s => s
      | None => []
      end
  end.

Definition parse_cards (soup : node) (selectors : Selectors.t) : list Card :=
  map (fun card_node =>
         let name := extract_text card_node (Selectors.name selectors) in
         let price_text := extract_text card_node (Selectors.price selectors) in
         let image_url := extract_image card_node (Selectors.image selectors) in
         {| name := name;
            price := normalize_price price_text;
            image_url := image_url |})
      (select soup (Selectors.card selectors)).

Definition find_next_page (soup : node) (selectors : Selectors.t) : option text :=
  match select_one soup (Selectors.next_page selectors) with
  | Some link =>
      match get link (py "href") with
      | Some href => if truthy href then Some href else None
      | None => None
      end
  | None => None
  end.

(** [session.get(url, timeout=20)] followed by [raise_for_status()],
    which raises for the statuses 400 to 599. *)
Definition session_get (url : text) : M node :=
  emit (Fetch url) ;;
  match site E url with
  | NoResponse => raise ConnectionError
  | Response status soup =>
      if (400 <=? status) && (status <? 600)
      then raise (HTTPError status)
      else ret soup
  end.

Definition sleep (seconds : float) : M unit :=
  emit (Sleep seconds) ;;
  if sleep_ok E seconds then ret tt else raise SleepError.

(** [max_pages and pages_seen >= max_pages] *)
Definition limit_reached (max_pages : option Z) (pages_seen : Z) : bool :=
  match max_pages with
  | None => false
  | Some m => negb (m =? 0) && (m <=? pages_seen)
  end.

(** The [while] loop of [fetch_cards]; one unit of fuel per iteration. *)
Fixpoint fetch_loop (fuel : nat) (selectors : Selectors.t) (delay : float)
    (max_pages : option Z) (collected : list Card) (pages_seen : Z)
    (next_url : option text) : M (list Card) :=
  match next_url with
  | Some url =>
      if truthy url then
        match fuel with
        | O => fun w => (Running, w)
        | S fuel' =>
            do soup <- session_get url;
            let collected := collected ++ parse_cards soup selectors in
            let pages_seen := pages_seen + 1 in
            if limit_reached max_pages pages_seen then ret collected
            else
              let next_url := find_next_page soup selectors in
              (if truthy_opt next_url then sleep delay else ret tt) ;;
              fetch_loop fuel' selectors delay max_pages collected
                         pages_seen next_url
        end
      else ret collected
  | None => ret collected
  end.

Definition fetch_cards (fuel : nat) (url : text) (selectors : Selectors.t)
    (delay : float) (max_pages : option Z) : M (list Card) :=
  fetch_loop fuel selectors delay max_pages [] 0 (Some url).

(** How the csv writer renders a cell: a string as it is, anything else
    through [str]. *)
Definition cell_text (c : cell) : text :=
  match c with
  | Str s => s
  | Num x => float_str E x
  end.

(** [open(path, "w", ...)]: the file is created or emptied. *)
Definition open_w (path : text) : M unit :=
  fun w =>
    if can_open E path
    then (Ok tt, {| files := <[path := []]> (files w); console := console w;
                    log := log w; sheets := sheets w |})
    else (Raise OSError, w).

(** [writer.writerow(row)] on the file opened at [path]: the record is
    formatted, encoded and appended. *)
Definition writerow (path : text) (row : list cell) : M unit :=
  fun w =>
    let record := Csv.writerow (map cell_text row) in
    if encodable record then
      let old := default [] (files w !! path) in
      (Ok tt, {| files := <[path := old ++ record]> (files w);
                 console := console w; log := log w; sheets := sheets w |})
    else (Raise UnicodeEncodeError, w).

(** [card.price if card.price is not None else ""] *)
Definition price_cell (c : Card) : cell :=
  match price c with
  | Some x => Num x
  | None => Str []
  end.

Definition card_row (c : Card) : list cell :=
  [Str (name c); price_cell c; Str (image_url c)].

Definition header : list cell :=
  [Str (py "name"); Str (py "price"); Str (py "image_url")].

Definition write_csv (cards : list Card) (path : text) : M unit :=
  open_w path ;;
  writerow path header ;;
  for_each cards (fun card => writerow path (card_row card)).

(** A call to the spreadsheet service that changes the worksheets by
    [change] when it is carried out. *)
Definition service_call (r : reply) (change : world -> world) : M unit :=
  fun w =>
    match r with
    | Done => (Ok tt, change w)
    | Refused => (Raise SheetError, w)
    | Lost => (Raise SheetError, change w)
    end.

(** [ws.clear()]: the worksheet [key] (spreadsheet id, title) is emptied. *)
Definition ws_clear (key : text * text) : M unit :=
  service_call (clear_reply E (fst key) (snd key))
    (fun w => {| files := files w; console := console w; log := log w;
                 sheets := <[key := []]> (sheets w) |}).

(** [ws.append_rows(rows, ...)]: the rows are added after those the
    worksheet holds. A worksheet is modelled by the rows sent to it; what
    the service makes of a cell entered as by a user is not modelled. *)
Definition ws_append_rows (key : text * text) (rows : list (list cell)) : M unit :=
  service_call (append_reply E (fst key) (snd key) rows)
    (fun w =>
       let old := default [] (sheets w !! key) in
       {| files := files w; console := console w; log := log w;
          sheets := <[key := old ++ rows]> (sheets w) |}).

(** The calls before [ws.clear()] (loading the credentials, authorizing,
    opening the spreadsheet, finding the worksheet) change nothing and are
    taken together: [sheet_ok] tells whether all of them succeed. *)
Definition push_to_google_sheet (cards : list Card)
    (spreadsheet_id worksheet credentials_path : text) : M unit :=
  if negb (gspread_installed E) then raise RuntimeError
  else
    (if sheet_ok E credentials_path spreadsheet_id worksheet
     then ret tt else raise SheetError) ;;
    let rows := map card_row cards in
    ws_clear (spreadsheet_id, worksheet) ;;
    ws_append_rows (spreadsheet_id, worksheet) (header :: rows).

(** The parsed command line. *)
Record Args := {
  url : text;
  output_csv : text;
  delay : float;
  max_pages : option Z;
  card_selector : text;
  name_selector : text;
  price_selector : text;
  image_selector : text;
  next_selector : text;
  google_sheet_id : option text;
  worksheet : text;
  service_account : option text
}.

Definition main (fuel : nat) (args : Args) : M unit :=
  let selectors :=
    {| Selectors.card := card_selector args;
       Selectors.name := name_selector args;
       Selectors.price := price_selector args;
       Selectors.image := image_selector args;
       Selectors.next_page := next_selector args |} in
  do cards <- fetch_cards fuel (url args) selectors (delay args) (max_pages args);
  write_csv cards (output_csv args) ;;
  print (Wrote (length cards) (output_csv args)) ;;
  match google_sheet_id args with
  | Some id =>
      if truthy id then
        (if negb (truthy_opt (service_account args)) then raise SystemExit
         else ret tt) ;;
        push_to_google_sheet cards id (worksheet args)
                             (default [] (service_account args)) ;;
        print (Uploaded (length cards) id (worksheet args))
      else ret tt
  | None => ret tt
  end.
End Scraper.

(* ===================================================================== *)
(** * A concrete document model                                           *)
(* ===================================================================== *)

(** Element trees, with a selector engine that understands type selectors
    only (a selector is the name of the elements it matches). It is one
    instance of [Dom] among many, used to run the script on examples. *)
Module Html.
Import Py.

#[local] Set Warnings "-register-all".

Inductive tree :=
| Element (tag : text) (attrs : list (text * text)) (contents : list tree)
| Text (s : text).

Fixpoint descendants (t : tree) : list tree :=
  match t with
  | Element _ _ contents => flat_map (fun c => c :: descendants c) contents
  | Text _ => []
  end.

Definition has_tag (sel : text) (t : tree) : bool :=
  match t with
  | Element tag _ _ => bool_decide (tag = sel)
  | Text _ => false
  end.

Fixpoint lookup_attr (key : text) (attrs : list (text * text)) : option text :=
  match attrs with
  | [] => None
  | (k, v) :: attrs' => if bool_decide (k = key) then Some v else lookup_attr key attrs'
  end.

(** The strings below a tree, each stripped, the empty ones dropped. *)
Fixpoint stripped_strings (t : tree) : list text :=
  match t with
  | Element _ _ contents => flat_map stripped_strings contents
  | Text s => match strip s with [] => [] | s' => [s'] end
  end.

#[export] Instance tree_dom : Dom tree := {|
  select t sel := filter (fun d => has_tag sel d = true) (descendants t);
  get t key := match t with Element _ attrs _ => lookup_attr key attrs | Text _ => None end;
  get_text t := concat (stripped_strings t)
|}.

(** The character database restricted to ASCII. *)
#[export] Program Instance ascii_data : UnicodeData := {| decimal := ascii_decimal |}.
Next Obligation. reflexivity. Qed.
Next Obligation.
  intros c d. unfold ascii_decimal.
  destruct (andb _ _) eqn:E; [|discriminate].
  apply andb_prop in E as [E1 E2]. apply N.leb_le in E1, E2.
  intros [= <-]. lia.
Qed.

(** The character database with the digits of two scripts: the ASCII
    digits and the Arabic-Indic digits, U+0660 to U+0669. *)
Definition two_scripts_decimal (c : char) : option N :=
  if ((48 <=? c) && (c <=? 57))%N then Some (c - 48)%N
  else if ((1632 <=? c) && (c <=? 1641))%N then Some (c - 1632)%N
  else None.

Program Definition two_scripts : UnicodeData := {| decimal := two_scripts_decimal |}.
Next Obligation.
  intros c Hc. unfold two_scripts_decimal.
  destruct ((48 <=? c)%N && (c <=? 57)%N); [done|].
  replace (1632 <=? c)%N with false by (symmetry; apply N.leb_gt; lia). done.
Qed.
Next Obligation.
  intros c d. unfold two_scripts_decimal.
  destruct ((48 <=? c)%N && (c <=? 57)%N) eqn:E1.
  { apply andb_prop in E1 as [E1 E2]. apply N.leb_le in E1, E2. intros [= <-]. lia. }
  destruct ((1632 <=? c)%N && (c <=? 1641)%N) eqn:E2; [|discriminate].
  apply andb_prop in E2 as [E2 E3]. apply N.leb_le in E2, E3. intros [= <-]. lia.
Qed.

(** A listing of three pages of cards, linked in a row. *)
Definition card_div (title cost src : text) : tree :=
  Element (py "div") []
    [Element (py "h2") [] [Text title];
     Element (py "span") [] [Text cost];
     Element (py "img") [(py "src", src)] []].

Definition next_link (href : text) : tree :=
  Element (py "a") [(py "href", href)] [Text (py "next")].

Definition page1 : tree :=
  Element (py "body") []
    [card_div (py "Pikachu") (py "12,50 " ++ [EURO]) (py "/img/25.png");
     card_div (py "Mew") (py "N/A") (py "/img/151.png");
     next_link (py "http://cards.test/2")].

Definition page2 : tree :=
  Element (py "body") []
    [card_div (py "Eevee") (py "3 " ++ [EURO]) (py "/img/133.png");
     next_link (py "http://cards.test/3")].

Definition page3 : tree :=
  Element (py "body") []
    [card_div (py "Snorlax") ([EURO; NBSP] ++ py "55,75") (py "/img/143.png")].

Definition selectors : Selectors.t :=
  {| Selectors.card := py "div"; Selectors.name := py "h2";
     Selectors.price := py "span"; Selectors.image := py "img";
     Selectors.next_page := py "a" |}.

Definition three_pages (url : text) : response tree :=
  if bool_decide (url = py "http://cards.test/1") then Response 200 page1
  else if bool_decide (url = py "http://cards.test/2") then Response 200 page2
  else if bool_decide (url = py "http://cards.test/3") then Response 200 page3
  else Response 404 (Text []).

(** A float printer for the examples: the exact decimal expansion of the
    value, with one fractional digit at least. It agrees with Python on the
    floats whose shortest representation is exact, such as 12.5 and 3.0. *)
Fixpoint digits_of (fuel : nat) (n : Z) (acc : text) : text :=
  match fuel with
  | O => acc
  | S fuel' =>
      let acc' := Z.to_N (48 + n mod 10) :: acc in
      if n / 10 =? 0 then acc' else digits_of fuel' (n / 10) acc'
  end.

Definition digits (n : Z) : text := digits_of (S (Z.to_nat (Z.log2 n))) n [].

Fixpoint drop_zeros (s : text) : text :=
  match s with
  | c :: s' => if N.eqb c 48 then drop_zeros s' else s
  | [] => []
  end.

Definition show_float (x : float) : text :=
  match x with
  | S754_zero s => (if s then [MINUS] else []) ++ py "0.0"
  | S754_infinity s => (if s then [MINUS] else []) ++ py "inf"
  | S754_nan => py "nan"
  | S754_finite s m e =>
      (if s then [MINUS] else []) ++
      (if 0 <=? e then digits (Z.pos m * 2 ^ e) ++ py ".0"
       else
         let k := Z.to_nat (- e) in
         let ds := digits (Z.pos m * 5 ^ (- e)) in
         let ds := repeat 48%N (S k - length ds) ++ ds in
         let ip := take (length ds - k) ds in
         let fp := rev (drop_zeros (rev (drop (length ds - k) ds))) in
         ip ++ PERIOD :: match fp with [] => py "0" | _ => fp end)
  end.

Definition example_env (pages : text -> response tree) (installed : bool) : env tree :=
  {| site := pages;
     sleep_ok x := match x with S754_zero _ | S754_finite false _ _ => true | _ => false end;
     float_str := show_float;
     can_open _ := true;
     gspread_installed := installed;
     sheet_ok _ _ _ := true;
     clear_reply _ _ := Done;
     append_reply _ _ _ := Done |}.

Definition u1 : text := py "http://cards.test/1".
Definition u2 : text := py "http://cards.test/2".
Definition u3 : text := py "http://cards.test/3".

(** The three pages, with the spreadsheet libraries installed. *)
Definition E3 : env tree := example_env three_pages true.

(** Cards with awkward names. *)
Definition tricky_cards : list Card :=
  [ {| name := py "Pikachu, the " ++ [QUOTE] ++ py "mouse" ++ [QUOTE];
       price := Some (S754_finite false 7036874417766400 (-49));
       image_url := py "/img/25.png" |};
    {| name := py "two" ++ [CR; LF] ++ py "lines" ++ [CR];
       price := None;
       image_url := [] |} ].

Definition empty_world : world :=
  {| files := ∅; console := []; log := []; sheets := ∅ |}.

Definition one_second : float := S754_finite false 4503599627370496 (-52).

Definition example_args : Args :=
  {| url := py "http://cards.test/1";
     output_csv := py "cards.csv";
     delay := one_second;
     max_pages := None;
     card_selector := py "div";
     name_selector := py "h2";
     price_selector := py "span";
     image_selector := py "img";
     next_selector := py "a";
     google_sheet_id := None;
     worksheet := py "Cartes";
     service_account := None |}.

(** The same command line with a spreadsheet to fill. *)
Definition with_sheet (args : Args) (id : text) (credentials : option text) : Args :=
  {| url := url args; output_csv := output_csv args; delay := delay args;
     max_pages := max_pages args; card_selector := card_selector args;
     name_selector := name_selector args; price_selector := price_selector args;
     image_selector := image_selector args; next_selector := next_selector args;
     google_sheet_id := Some id; worksheet := worksheet args;
     service_account := credentials |}.

(** A page that links to itself, and a site made of it. *)
Definition loop_page : tree :=
  Element (py "body") []
    [card_div (py "Ditto") (py "1,00 " ++ [EURO]) (py "/img/132.png");
     next_link u1].

Definition loop_site (url : text) : response tree := Response 200 loop_page.

(** A delay [time.sleep] refuses. *)
Definition minus_one_second : float := S754_finite true 4503599627370496 (-52).

(** The example command line with an empty start address. *)
Definition no_url_args : Args :=
  {| url := []; output_csv := output_csv example_args; delay := delay example_args;
     max_pages := max_pages example_args; card_selector := card_selector example_args;
     name_selector := name_selector example_args;
     price_selector := price_selector example_args;
     image_selector := image_selector example_args;
     next_selector := next_selector example_args;
     google_sheet_id := None; worksheet := worksheet example_args;
     service_account := None |}.

(** The three pages with a spreadsheet service that finds the worksheet,
    empties it, and then refuses the rows. *)
Definition E3_refusing : env tree :=
  {| site := site E3; sleep_ok := sleep_ok E3; float_str := float_str E3;
     can_open := can_open E3; gspread_installed := true; sheet_ok := sheet_ok E3;
     clear_reply _ _ := Done;
     append_reply _ _ _ := Refused |}.

(** A world whose worksheet holds a row from an earlier upload. *)
Definition old_sheet_world : world :=
  {| files := ∅; console := []; log := [];
     sheets := {[ (py "sheet-1", py "Cartes") := [[Str (py "old")]] ]} |}.

(** A card whose name holds a lone surrogate. *)
Definition broken_card : Card :=
  {| name := [55296%N]; price := None; image_url := [] |}.

End Html.

(* ===================================================================== *)
(** * Vocabulary of the properties                                        *)
(* ===================================================================== *)

(** The world after the events [tr] were added to its log, and nothing
    else changed. *)
Definition logged (w : world) (tr : list event) : world :=
  {| files := files w; console := console w;
     log := log w ++ tr; sheets := sheets w |}.

(** A log of requests and pauses where every pause stands between two
    requests: empty, or a request followed by pause-request pairs. *)
Fixpoint paced (tr : list event) : bool :=
  match tr with
  | [] => true
  | Sleep _ :: _ => false
  | Fetch _ :: tr' =>
      match tr' with
      | [] => true
      | Fetch _ :: _ => false
      | Sleep _ :: tr'' =>
          match tr'' with
          | Fetch _ :: _ => paced tr''
          | _ => false
          end
      end
  end.

Definition fetches (tr : list event) : list text :=
  flat_map (fun e => match e with Fetch u => [u] | Sleep _ => [] end) tr.

(** A status for which [raise_for_status] raises. *)
Definition error_status (status : Z) : bool := (400 <=? status) && (status <? 600).

(** The record [parse_cards] builds for one card container. *)
Definition card_of `{UnicodeData} {node} `{Dom node}
    (selectors : Selectors.t) (card_node : node) : Card :=
  {| name := extract_text card_node (Selectors.name selectors);
     price := normalize_price (extract_text card_node (Selectors.price selectors));
     image_url := extract_image card_node (Selectors.image selectors) |}.

(** The text that [write_csv] leaves in the file. *)
Definition csv_text {node} (E : env node) (cards : list Card) : text :=
  flat_map (fun row => Csv.writerow (map (cell_text E) row))
           (header :: map card_row cards).

(** The world after [path] was given the content [content]. *)
Definition with_file (w : world) (path content : text) : world :=
  {| files := <[path := content]> (files w); console := console w;
     log := log w; sheets := sheets w |}.

(** The world after the worksheet [key] was given the rows [rows]. *)
Definition with_rows (w : world) (key : text * text) (rows : list (list cell)) : world :=
  {| files := files w; console := console w; log := log w;
     sheets := <[key := rows]> (sheets w) |}.

(** The selectors [main] builds from the command line. *)
Definition args_selectors (args : Args) : Selectors.t :=
  {| Selectors.card := card_selector args;
     Selectors.name := name_selector args;
     Selectors.price := price_selector args;
     Selectors.image := image_selector args;
     Selectors.next_page := next_selector args |}.

(** What may surround the number in a price text: the currency sign and
    blanks, the non-breaking space among them. *)
Definition decoration (c : char) : bool := N.eqb c EURO || is_space c.

Definition ascii_digit (c : char) : bool := ((48 <=? c) && (c <=? 57))%N.

Definition digit_value (c : char) : Z := Z.of_N (c - 48).

(** The value of a decimal digit of the character database. *)
Definition decimal_value `{UnicodeData} (c : char) : Z :=
  match decimal c with Some d => Z.of_N d | None => 0 end.

(** No decimal digit is a currency sign or a blank. This holds of every
    version of the Unicode character database. *)
Definition digits_apart `{UnicodeData} : Prop :=
  forall c, is_digit c = true -> decoration c = false.

(** Whether a text ends with a minus sign. *)
Definition ends_with_minus (s : text) : bool :=
  match last s with Some c => N.eqb c MINUS | None => false end.

(** Whether a minus sign stands right at the end of [pre], the currency
    signs not counted. *)
Definition minus_before (pre : text) : bool := ends_with_minus (replace EURO [] pre).

(** A text that does not begin with a decimal digit. *)
Definition starts_without_digit `{UnicodeData} (s : text) : Prop :=
  match s with [] => True | c :: _ => is_digit c = false end.

(** The shape of what the price pattern matches: an optional minus sign,
    digits, and optionally a period and digits. *)
Definition numeral `{UnicodeData} (m : text) : Prop :=
  exists (neg : bool) ds fs,
    ds <> [] /\
    Forall (fun c => is_digit c = true) ds /\
    Forall (fun c => is_digit c = true) fs /\
    m = (if neg then [MINUS] else []) ++ ds
          ++ match fs with [] => [] | _ => PERIOD :: fs end.

(** A field the csv reader takes in: it has no more characters than the
    field size limit. *)
Definition fits (limit : N) (f : text) : Prop := (N.of_nat (length f) <= limit)%N.


(** Equalities of texts up to the bracketing of [++]. *)
Ltac reassoc :=
  repeat (progress (cbn [app]; rewrite <- ?app_assoc)); reflexivity.

(** The price normalizer read to the letter of its description: the
    currency sign and the non-breaking spaces are both taken out, then the
    text is trimmed, commas become periods, and the first number is
    parsed. It is compared with [normalize_price] below. *)
Definition normalize_price_as_described `{UnicodeData} (raw : text) : option float :=
  let cleaned := strip (replace NBSP [] (replace EURO [] raw)) in
  let cleaned := replace COMMA [PERIOD] cleaned in
  match re_search cleaned with
  | None => None
  | Some m => py_float m
  end.

(** What the csv parser is fed for the text [s], computed in one pass;
    [opened] tells whether the current line already has characters. *)
Fixpoint stream (opened : bool) (s : text) : list Csv.sym :=
  match s with
  | [] => if opened then [Csv.EOL] else []
  | c :: s' =>
      Csv.Chr c ::
      (if N.eqb c LF then Csv.EOL :: stream false s'
       else if N.eqb c CR then
         match s' with
         | d :: _ => if N.eqb d LF then stream true s' else Csv.EOL :: stream false s'
         | [] => [Csv.EOL]
         end
       else stream true s')
  end.


(** A shift record of the rounding functions whose mantissa is not
    negative. *)
Definition shr_nonneg (mrs : shr_record) : Prop := 0 <= shr_m mrs.

(** A row of pages: every address answers with its page and no error
    status, and every page but the last links to the next address. Nothing
    is asked of the last page's link. *)
Inductive chain `{Dom node} (E : env node) (sel : Selectors.t)
  : list text -> list node -> Prop :=
| chain_last u p status :
    truthy u = true -> site E u = Response status p ->
    error_status status = false ->
    chain E sel [u] [p]
| chain_next u p status u' urls pages :
    truthy u = true -> site E u = Response status p ->
    error_status status = false ->
    find_next_page p sel = Some u' ->
    chain E sel (u' :: urls) pages ->
    chain E sel (u :: u' :: urls) (p :: pages).

(** The log of a crawl through [urls] with a pause before every request but
    the first. *)
Definition crawl_log (d : float) (urls : list text) : list event :=
  match urls with
  | [] => []
  | u :: rest => Fetch u :: flat_map (fun u' => [Sleep d; Fetch u']) rest
  end.

(** The last element of a list of pages. *)
Definition last_page {node} (pages : list node) : option node := last pages.

(** The value [m * 2^e] of a finite float equals the fraction [p / q]. *)
Definition float_is (x : float) (p q : Z) : Prop :=
  match x with
  | S754_finite s m e =>
      (if s then - Z.pos m else Z.pos m) * q * 2 ^ Z.max e 0 = p * 2 ^ Z.max (- e) 0
  | S754_zero _ => p = 0
  | _ => False
  end.

Definition twelve_and_a_half : float := S754_finite false 7036874417766400 (-49).

(* ===================================================================== *)
(** * Properties of the pagination driver                                 *)
(* ===================================================================== *)

Section FetchProps.
Context `{UnicodeData} {node : Type} `{Dom node}.
Variable E : env node.

Lemma logged_nil w : logged w [] = w.
Proof. destruct w; unfold logged; simpl. by rewrite app_nil_r. Qed.

Lemma logged_logged w a b : logged (logged w a) b = logged w (a ++ b).
Proof. unfold logged; simpl. by rewrite app_assoc. Qed.

Lemma find_next_page_truthy soup sel u :
  find_next_page soup sel = Some u -> truthy u = true.
Proof.
  unfold find_next_page.
  destruct (select_one soup _) as [link|]; [|discriminate].
  destruct (get link _) as [href|]; [|discriminate].
  destruct (truthy href) eqn:T; [|discriminate].
  by intros [= <-].
Qed.

Lemma session_get_ok url status soup w :
  site E url = Response status soup -> error_status status = false ->
  session_get E url w = (Ok soup, logged w [Fetch url]).
Proof.
  intros Hs He. unfold session_get, bind, emit. rewrite Hs.
  unfold error_status in He. by rewrite He.
Qed.

Lemma session_get_fails url w :
  (site E url = NoResponse \/
   exists status soup, site E url = Response status soup /\ error_status status = true) ->
  exists e, session_get E url w = (Raise e, logged w [Fetch url]).
Proof.
  unfold session_get, bind, emit.
  intros [Hs | (status & soup & Hs & He)]; rewrite Hs.
  - by exists ConnectionError.
  - unfold error_status in He. rewrite He. by exists (HTTPError status).
Qed.

Lemma sleep_logged d w :
  sleep E d w = (if sleep_ok E d then Ok tt else Raise SleepError, logged w [Sleep d]).
Proof. unfold sleep, bind, emit. simpl. by destruct (sleep_ok E d). Qed.

(** The loop stops at once on a missing or empty address. *)
Lemma fetch_loop_done fuel sel d mx coll seen next w :
  truthy_opt next = false ->
  fetch_loop E fuel sel d mx coll seen next w = (Ok coll, w).
Proof.
  destruct next as [[|c u]|]; try discriminate; intros _; by destruct fuel.
Qed.

(** One iteration on a page that comes back without an error status. *)
Lemma fetch_loop_step fuel sel d mx coll seen url status soup w :
  truthy url = true ->
  site E url = Response status soup -> error_status status = false ->
  fetch_loop E (S fuel) sel d mx coll seen (Some url) w =
  let coll' := coll ++ parse_cards soup sel in
  if limit_reached mx (seen + 1) then (Ok coll', logged w [Fetch url])
  else
    match find_next_page soup sel with
    | Some u =>
        if sleep_ok E d
        then fetch_loop E fuel sel d mx coll' (seen + 1) (Some u)
                        (logged w [Fetch url; Sleep d])
        else (Raise SleepError, logged w [Fetch url; Sleep d])
    | None => (Ok coll', logged w [Fetch url])
    end.
Proof.
  intros Ht Hs He. simpl. rewrite Ht.
  unfold bind at 1. rewrite (session_get_ok _ _ _ _ Hs He).
  destruct (limit_reached mx (seen + 1)); [reflexivity|].
  destruct (find_next_page soup sel) as [u|] eqn:Hn.
  - pose proof (find_next_page_truthy _ _ _ Hn) as Hu.
    simpl. rewrite Hu. unfold bind at 1. rewrite sleep_logged, logged_logged.
    by destruct (sleep_ok E d).
  - simpl. unfold bind, ret. by destruct fuel.
Qed.

(** A failing request ends the loop with the error and one more entry in
    the log. *)
Lemma fetch_loop_fails fuel sel d mx coll seen url w :
  truthy url = true ->
  (site E url = NoResponse \/
   exists status soup, site E url = Response status soup /\ error_status status = true) ->
  exists e, fetch_loop E (S fuel) sel d mx coll seen (Some url) w
            = (Raise e, logged w [Fetch url]).
Proof.
  intros Ht Hf. destruct (session_get_fails url w Hf) as [e He].
  exists e. simpl. rewrite Ht. unfold bind. by rewrite He.
Qed.

(** Whatever the loop does, it only adds to the log. When it returns, what
    it added is paced, and starts with a request if there was an address
    to fetch. *)
Lemma fetch_loop_paced fuel sel d mx : forall coll seen next w cards w',
  fetch_loop E fuel sel d mx coll seen next w = (Ok cards, w') ->
  exists tr, w' = logged w tr /\ paced tr = true /\
             (truthy_opt next = true -> exists u tr', tr = Fetch u :: tr').
Proof.
  induction fuel as [|fuel IH]; intros coll seen next w cards w' Hrun;
    destruct (truthy_opt next) eqn:Hnext.
  - destruct next as [[|c u]|]; discriminate.
  - rewrite fetch_loop_done in Hrun by done. injection Hrun as _ <-.
    exists []. rewrite logged_nil. split; [done|]. split; [done|discriminate].
  - 
    destruct next as [url|]; [|discriminate]. simpl in Hnext.
    destruct (site E url) as [|status soup] eqn:Hs.
    { destruct (fetch_loop_fails fuel sel d mx coll seen url w Hnext) as [e He];
        [by left | congruence]. }
    destruct (error_status status) eqn:Hst.
    { destruct (fetch_loop_fails fuel sel d mx coll seen url w Hnext) as [e He];
        [right; eauto | congruence]. }
    rewrite (fetch_loop_step _ _ _ _ _ _ _ _ _ _ Hnext Hs Hst) in Hrun.
    cbv zeta in Hrun.
    destruct (limit_reached mx (seen + 1)).
    { injection Hrun as _ <-. exists [Fetch url]. split; [done|]. split; [done|eauto]. }
    destruct (find_next_page soup sel) as [u|] eqn:Hn.
    2:{ injection Hrun as _ <-. exists [Fetch url]. split; [done|]. split; [done|eauto]. }
    destruct (sleep_ok E d); [|discriminate].
    apply IH in Hrun as (tr & -> & Hp & Hhd).
    destruct Hhd as (u' & tr' & ->).
    { simpl. eapply find_next_page_truthy, Hn. }
    exists (Fetch url :: Sleep d :: Fetch u' :: tr').
    rewrite logged_logged. split; [done|]. split; [exact Hp | eauto].
  - rewrite fetch_loop_done in Hrun by done. injection Hrun as _ <-.
    exists []. rewrite logged_nil. split; [done|]. split; [done|discriminate].
Qed.

(** A limit of zero pages is no limit. *)
Lemma fetch_loop_zero_limit fuel sel d : forall coll seen next w,
  fetch_loop E fuel sel d (Some 0) coll seen next w
  = fetch_loop E fuel sel d None coll seen next w.
Proof.
  induction fuel as [|fuel IH]; intros coll seen next w; [reflexivity|].
  destruct next as [url|]; [|reflexivity]. simpl.
  destruct (truthy url); [|reflexivity].
  unfold bind at 1 3. destruct (session_get E url w) as [[soup|e|] w1]; try reflexivity.
  unfold bind. destruct (truthy_opt (find_next_page soup sel)).
  - destruct (sleep E d w1) as [[[]|e|] w2]; try reflexivity. apply IH.
  - simpl. apply IH.
Qed.

(** C1. On a site of three pages, where the first two pages link to the
    next one and the third does not, [fetch_cards] without a page limit
    requests exactly the three pages, in order, and returns the cards of
    page 1, then of page 2, then of page 3; the cards of a page are those of
    its card containers in document order, so the number of cards returned
    is the sum of the numbers of the three pages. *)
Theorem fetch_cards_three_pages fuel sel d u1 u2 u3 s1 s2 s3 p1 p2 p3 w :
  truthy u1 = true ->
  site E u1 = Response s1 p1 -> error_status s1 = false ->
  find_next_page p1 sel = Some u2 ->
  site E u2 = Response s2 p2 -> error_status s2 = false ->
  find_next_page p2 sel = Some u3 ->
  site E u3 = Response s3 p3 -> error_status s3 = false ->
  find_next_page p3 sel = None ->
  sleep_ok E d = true ->
  exists cards w',
    fetch_cards E (3 + fuel) u1 sel d None w = (Ok cards, w') /\
    w' = logged w [Fetch u1; Sleep d; Fetch u2; Sleep d; Fetch u3] /\
    fetches (drop (length (log w)) (log w')) = [u1; u2; u3] /\
    cards = parse_cards p1 sel ++ parse_cards p2 sel ++ parse_cards p3 sel /\
    cards = flat_map (fun p => map (card_of sel) (select p (Selectors.card sel)))
                     [p1; p2; p3] /\
    length cards = (length (parse_cards p1 sel) + length (parse_cards p2 sel)
                    + length (parse_cards p3 sel))%nat.
Proof.
  intros Ht H1 E1 N1 H2 E2 N2 H3 E3 N3 Hd.
  pose proof (find_next_page_truthy _ _ _ N1) as Ht2.
  pose proof (find_next_page_truthy _ _ _ N2) as Ht3.
  eexists _, _. split.
  { unfold fetch_cards. change (3 + fuel)%nat with (S (S (S fuel))).
    rewrite (fetch_loop_step _ _ _ _ _ _ _ _ _ _ Ht H1 E1). cbv zeta. simpl limit_reached.
    cbv iota. rewrite N1, Hd.
    rewrite (fetch_loop_step _ _ _ _ _ _ _ _ _ _ Ht2 H2 E2). cbv zeta. simpl limit_reached.
    cbv iota. rewrite N2, Hd.
    rewrite (fetch_loop_step _ _ _ _ _ _ _ _ _ _ Ht3 H3 E3). cbv zeta. simpl limit_reached.
    cbv iota. rewrite N3. rewrite !logged_logged. reflexivity. }
  split; [reflexivity|]. split.
  { simpl. rewrite drop_app_length. reflexivity. }
  split; [by rewrite app_assoc|]. split.
  { simpl. rewrite app_nil_r. unfold parse_cards, card_of. by rewrite app_assoc. }
  by rewrite !length_app.
Qed.

(** C2. On the same site a limit of two pages makes [fetch_cards] request
    pages 1 and 2 only: the link of page 2 is never followed and no pause
    follows the request of page 2. With a limit of one page the log is the
    single request of page 1. In general, when the limit is reached on the
    page just fetched the loop returns at once, and whenever the loop
    returns, every pause it made stands between two requests. *)
Theorem fetch_cards_page_limit fuel sel d u1 u2 u3 s1 s2 s3 p1 p2 p3 w :
  truthy u1 = true ->
  site E u1 = Response s1 p1 -> error_status s1 = false ->
  find_next_page p1 sel = Some u2 ->
  site E u2 = Response s2 p2 -> error_status s2 = false ->
  find_next_page p2 sel = Some u3 ->
  site E u3 = Response s3 p3 -> error_status s3 = false ->
  find_next_page p3 sel = None ->
  sleep_ok E d = true ->
  fetch_cards E (2 + fuel) u1 sel d (Some 2) w
    = (Ok (parse_cards p1 sel ++ parse_cards p2 sel),
       logged w [Fetch u1; Sleep d; Fetch u2]) /\
  fetch_cards E (1 + fuel) u1 sel d (Some 1) w
    = (Ok (parse_cards p1 sel), logged w [Fetch u1]) /\
  (forall mx coll seen w0,
     limit_reached mx (seen + 1) = true ->
     fetch_loop E (S fuel) sel d mx coll seen (Some u1) w0
       = (Ok (coll ++ parse_cards p1 sel), logged w0 [Fetch u1])) /\
  (forall n mx coll seen next w0 cards w1,
     fetch_loop E n sel d mx coll seen next w0 = (Ok cards, w1) ->
     exists tr, w1 = logged w0 tr /\ paced tr = true).
Proof.
  intros Ht H1 E1 N1 H2 E2 N2 H3 E3 N3 Hd.
  pose proof (find_next_page_truthy _ _ _ N1) as Ht2.
  split; [|split; [|split]].
  - unfold fetch_cards. change (2 + fuel)%nat with (S (S fuel)).
    rewrite (fetch_loop_step _ _ _ _ _ _ _ _ _ _ Ht H1 E1). cbv zeta. simpl limit_reached.
    cbv iota. rewrite N1, Hd.
    rewrite (fetch_loop_step _ _ _ _ _ _ _ _ _ _ Ht2 H2 E2). cbv zeta. simpl limit_reached.
    cbv iota. by rewrite logged_logged.
  - unfold fetch_cards. change (1 + fuel)%nat with (S fuel).
    by rewrite (fetch_loop_step _ _ _ _ _ _ _ _ _ _ Ht H1 E1).
  - intros mx coll seen w0 Hl.
    rewrite (fetch_loop_step _ _ _ _ _ _ _ _ _ _ Ht H1 E1). cbv zeta. by rewrite Hl.
  - intros n mx coll seen next w0 cards w1 Hrun.
    apply fetch_loop_paced in Hrun as (tr & -> & Hp & _). eauto.
Qed.

End FetchProps.

(* ===================================================================== *)
(** * Properties of the price normalizer                                  *)
(* ===================================================================== *)

Section PriceProps.
Context `{UnicodeData}.

(** ** Text *)

Lemma replace_app old new a b :
  replace old new (a ++ b) = replace old new a ++ replace old new b.
Proof. unfold replace. apply flat_map_app. Qed.

Lemma replace_absent old new s :
  Forall (fun c => N.eqb c old = false) s -> replace old new s = s.
Proof.
  induction 1 as [|c s Hc _ IH]; [done|]. unfold replace in *. simpl.
  by rewrite Hc, IH.
Qed.

Lemma replace_Forall (P : char -> Prop) old new s :
  Forall P new -> Forall P s -> Forall P (replace old new s).
Proof.
  intros Hnew. induction 1 as [|c s Hc _ IH]; [constructor|].
  unfold replace in *. simpl. destruct (N.eqb c old).
  - apply Forall_app; auto.
  - by constructor.
Qed.

Lemma lstrip_Forall (P : char -> Prop) s : Forall P s -> Forall P (lstrip s).
Proof.
  induction 1 as [|c s Hc Hs IH]; [constructor|]. simpl.
  destruct (is_space c); [exact IH | by constructor].
Qed.

Lemma strip_Forall (P : char -> Prop) s : Forall P s -> Forall P (strip s).
Proof.
  intros Hs. unfold strip, rstrip.
  apply Forall_rev, lstrip_Forall, Forall_rev, lstrip_Forall, Hs.
Qed.

Lemma lstrip_blanks ws s :
  Forall (fun c => is_space c = true) ws -> lstrip (ws ++ s) = lstrip s.
Proof. induction 1 as [|c ws Hc _ IH]; [done|]. simpl. by rewrite Hc. Qed.

Lemma lstrip_head c s : is_space c = false -> lstrip (c :: s) = c :: s.
Proof. intros Hc. simpl. by rewrite Hc. Qed.

(** ** The pattern *)

Lemma is_digit_ascii c : (c < 128)%N -> is_digit c = ascii_digit c.
Proof.
  intros Hc. unfold is_digit, ascii_digit. rewrite decimal_ascii by done.
  by destruct (andb _ _).
Qed.

Lemma decimal_ascii_digit c :
  ascii_digit c = true -> decimal c = Some (c - 48)%N.
Proof.
  intros Hc. pose proof Hc as Hc'. unfold ascii_digit in Hc'.
  apply andb_prop in Hc' as [_ Hle]. apply N.leb_le in Hle.
  rewrite decimal_ascii by lia. unfold ascii_digit in Hc. by rewrite Hc.
Qed.

Lemma ascii_digit_is_digit c : ascii_digit c = true -> is_digit c = true.
Proof. intros Hc. unfold is_digit. by rewrite (decimal_ascii_digit _ Hc). Qed.

Lemma match_unsigned_none s : starts_without_digit s -> match_unsigned s = None.
Proof.
  destruct s as [|c s]; [done|]. simpl. intros Hc. unfold match_unsigned. simpl.
  by rewrite Hc.
Qed.

Lemma match_here_none s :
  Forall (fun c => is_digit c = false) s -> match_here s = None.
Proof.
  intros Hs. destruct Hs as [|c s Hc Hs]; [done|].
  unfold match_here.
  rewrite (match_unsigned_none (c :: s)) by done.
  rewrite (match_unsigned_none s) by (by destruct Hs).
  by destruct (N.eqb c MINUS).
Qed.

Lemma re_search_cons c s :
  re_search (c :: s)
  = match match_here (c :: s) with Some m => Some m | None => re_search s end.
Proof. reflexivity. Qed.

Lemma re_search_none s :
  Forall (fun c => is_digit c = false) s -> re_search s = None.
Proof.
  induction 1 as [|c s Hc Hs IH]; [done|].
  rewrite re_search_cons, match_here_none by (by constructor). exact IH.
Qed.

Lemma span_digits_run ds rest :
  Forall (fun c => is_digit c = true) ds -> starts_without_digit rest ->
  span_digits (ds ++ rest) = (ds, rest).
Proof.
  intros Hds Hrest. induction Hds as [|c ds Hc _ IH]; cbn [app span_digits].
  - destruct rest as [|c rest]; [done|]. cbn [starts_without_digit] in Hrest.
    cbn [span_digits]. by rewrite Hrest.
  - by rewrite Hc, IH.
Qed.

(** ** Conversion to a float *)

Lemma split_period_run ds fs :
  Forall (fun c => N.eqb c PERIOD = false) ds ->
  split_period (ds ++ PERIOD :: fs) = (ds, Some fs).
Proof.
  induction 1 as [|c ds Hc _ IH]; cbn [app split_period].
  - by rewrite N.eqb_refl.
  - by rewrite Hc, IH.
Qed.

Lemma digit_values_ascii ds :
  Forall (fun c => ascii_digit c = true) ds ->
  digit_values ds = Some (map digit_value ds).
Proof.
  induction 1 as [|c ds Hc _ IH]; [done|]. simpl.
  by rewrite (decimal_ascii_digit _ Hc), IH.
Qed.

Lemma ascii_digit_facts c :
  ascii_digit c = true ->
  N.eqb c PERIOD = false /\ N.eqb c MINUS = false /\ N.eqb c 43 = false /\
  N.eqb c EURO = false /\ N.eqb c NBSP = false /\ N.eqb c COMMA = false /\
  is_space c = false.
Proof.
  unfold ascii_digit. intros Hc. apply andb_prop in Hc as [H1 H2].
  apply N.leb_le in H1, H2.
  assert (Hne : forall k, (k < 48 \/ 57 < k)%N -> N.eqb c k = false).
  { intros k Hk. apply N.eqb_neq. lia. }
  unfold PERIOD, MINUS, EURO, NBSP, COMMA.
  repeat (split; [apply Hne; lia|]).
  unfold is_space.
  repeat match goal with
  | |- context [(?a <=? c)%N] =>
      first [ replace (a <=? c)%N with true by (symmetry; apply N.leb_le; lia)
            | replace (a <=? c)%N with false by (symmetry; apply N.leb_gt; lia) ]
  | |- context [(c <=? ?a)%N] =>
      first [ replace (c <=? a)%N with true by (symmetry; apply N.leb_le; lia)
            | replace (c <=? a)%N with false by (symmetry; apply N.leb_gt; lia) ]
  | |- context [(c =? ?a)%N] =>
      replace (c =? a)%N with false by (symmetry; apply N.eqb_neq; lia)
  end.
  reflexivity.
Qed.

Lemma rstrip_blanks s c ws :
  is_space c = false -> Forall (fun c => is_space c = true) ws ->
  rstrip ((s ++ [c]) ++ ws) = s ++ [c].
Proof.
  intros Hc Hws. unfold rstrip. rewrite rev_app_distr, rev_unit.
  rewrite lstrip_blanks by (by apply Forall_rev).
  rewrite lstrip_head by done.
  cbn [rev]. by rewrite rev_involutive.
Qed.

Lemma decoration_blanks s :
  Forall (fun c => decoration c = true) s ->
  Forall (fun c => is_space c = true)
         (replace NBSP [SPACE] (replace EURO [] s)).
Proof.
  intros Hs. apply replace_Forall; [by repeat constructor|].
  induction Hs as [|c s Hc _ IH]; [constructor|].
  unfold replace in *. cbn [flat_map]. unfold decoration in Hc.
  destruct (N.eqb c EURO); [exact IH|]. by constructor.
Qed.

Lemma digits_untouched old new ds :
  (forall c, ascii_digit c = true -> N.eqb c old = false) ->
  Forall (fun c => ascii_digit c = true) ds -> replace old new ds = ds.
Proof.
  intros Hold Hds. apply replace_absent.
  eapply Forall_impl; [exact Hds|]. exact Hold.
Qed.

(** ** Every match converts *)

Lemma span_digits_spec s : forall ds rest,
  span_digits s = (ds, rest) ->
  s = ds ++ rest /\ Forall (fun c => is_digit c = true) ds.
Proof.
  induction s as [|c s IH]; intros ds rest; cbn [span_digits].
  - by intros [= <- <-].
  - destruct (is_digit c) eqn:Hc.
    + destruct (span_digits s) as [ds' rest'] eqn:Hs. intros [= <- <-].
      destruct (IH ds' rest' eq_refl) as [-> Hds]. split; [done|by constructor].
    + by intros [= <- <-].
Qed.

Lemma match_unsigned_numeral s m :
  match_unsigned s = Some m ->
  exists ds fs,
    ds <> [] /\ Forall (fun c => is_digit c = true) ds /\
    Forall (fun c => is_digit c = true) fs /\
    m = ds ++ match fs with [] => [] | _ => PERIOD :: fs end.
Proof.
  unfold match_unsigned. destruct (span_digits s) as [ds rest] eqn:Hs.
  apply span_digits_spec in Hs as [-> Hds].
  destruct ds as [|d ds]; [discriminate|].
  assert (Hplain : exists fs : list N,
            (d :: ds) <> [] /\ Forall (fun c => is_digit c = true) (d :: ds) /\
            Forall (fun c => is_digit c = true) fs /\
            d :: ds = (d :: ds) ++ match fs with [] => [] | _ => PERIOD :: fs end).
  { exists []. by rewrite app_nil_r. }
  destruct rest as [|c rest]; [intros [= <-]; eauto|].
  destruct (N.eqb c PERIOD); [|intros [= <-]; eauto].
  destruct (span_digits rest) as [fs rest'] eqn:Hf.
  apply span_digits_spec in Hf as [-> Hfs].
  destruct fs as [|f fs]; intros [= <-]; [eauto|].
  exists (d :: ds), (f :: fs). by repeat split.
Qed.

Lemma match_here_numeral s m : match_here s = Some m -> numeral m.
Proof.
  assert (Hu : forall s', match_unsigned s' = Some m -> numeral m).
  { intros s' Hm. apply match_unsigned_numeral in Hm as (ds & fs & ? & ? & ? & ->).
    by exists false, ds, fs. }
  unfold match_here. destruct s as [|c s]; [apply Hu|].
  destruct (N.eqb c MINUS); [|apply Hu].
  destruct (match_unsigned s) as [m'|] eqn:Hm; [|apply Hu].
  intros [= <-]. apply match_unsigned_numeral in Hm as (ds & fs & ? & ? & ? & ->).
  by exists true, ds, fs.
Qed.

Lemma re_search_numeral s : forall m, re_search s = Some m -> numeral m.
Proof.
  induction s as [|c s IH]; intros m.
  - cbn [re_search]. destruct (match_here []) eqn:Hm; [|discriminate].
    intros [= <-]. by apply match_here_numeral in Hm.
  - rewrite re_search_cons. destruct (match_here (c :: s)) eqn:Hm; [|apply IH].
    intros [= <-]. by apply match_here_numeral in Hm.
Qed.

Lemma digit_not_punctuation c :
  is_digit c = true ->
  N.eqb c MINUS = false /\ N.eqb c 43 = false /\ N.eqb c PERIOD = false.
Proof.
  intros Hc.
  assert (Hne : forall k, (k < 128)%N -> ascii_digit k = false -> N.eqb c k = false).
  { intros k Hk Hd. apply N.eqb_neq. intros ->.
    rewrite is_digit_ascii in Hc by done. congruence. }
  repeat split; by apply Hne.
Qed.

Lemma split_period_digits ds :
  Forall (fun c => is_digit c = true) ds -> split_period ds = (ds, None).
Proof.
  induction 1 as [|c ds Hc _ IH]; [done|]. cbn [split_period].
  destruct (digit_not_punctuation c Hc) as (_ & _ & ->). by rewrite IH.
Qed.

Lemma digit_values_digits ds :
  Forall (fun c => is_digit c = true) ds -> exists vs, digit_values ds = Some vs.
Proof.
  induction 1 as [|c ds Hc _ [vs IH]]; [by exists []|]. cbn [digit_values].
  unfold is_digit in Hc. destruct (decimal c) as [d|]; [|discriminate].
  rewrite IH. eauto.
Qed.

(** [float] accepts whatever the pattern matches: the [ValueError] branch
    of [normalize_price] is never taken. *)
Lemma py_float_numeral m : numeral m -> exists x, py_float m = Some x.
Proof.
  intros (neg & ds & fs & Hne & Hds & Hfs & ->).
  destruct ds as [|d ds]; [done|].
  assert (Hd : is_digit d = true) by (by inversion Hds).
  destruct (digit_not_punctuation d Hd) as (Hm & Hp & _).
  destruct (digit_values_digits _ Hds) as [vs Hvs].
  destruct (digit_values_digits _ Hfs) as [es Hes].
  assert (Hbody : forall neg',
    float_of_numeral neg' ((d :: ds) ++ match fs with [] => [] | _ => PERIOD :: fs end)
    = Some (round_ratio neg' (number_of (vs ++ es)) (10 ^ Z.of_nat (length es)))).
  { intros neg'. unfold float_of_numeral. destruct fs as [|f fs].
    - rewrite app_nil_r, split_period_digits by done. cbn [app] in *.
      rewrite Hvs. cbn [digit_values] in Hes. injection Hes as <-. reflexivity.
    - rewrite split_period_run.
      2:{ eapply Forall_impl; [exact Hds|]. intros c Hc.
          apply (digit_not_punctuation c Hc). }
      cbn [app]. by rewrite Hvs, Hes. }
  unfold py_float. destruct neg.
  - change ([MINUS] ++ ?x) with (MINUS :: x).
    change (N.eqb MINUS MINUS) with true. cbv iota. rewrite Hbody. eauto.
  - change ([] ++ ?x) with x. cbn [app]. rewrite Hm, Hp.
    rewrite app_comm_cons, Hbody. eauto.
Qed.

(** C5. A price text without any decimal digit has no price: the result is
    [None]. The function is total and never raises: a text where the
    pattern finds nothing gives [None], and so would a match that [float]
    refused; in fact [float] accepts every match, so the result is [None]
    exactly when the pattern finds nothing in the cleaned text. *)
Theorem normalize_price_absent raw :
  (Forall (fun c => is_digit c = false) raw -> normalize_price raw = None) /\
  (let cleaned :=
     replace COMMA [PERIOD]
       (strip (replace NBSP [SPACE] (replace EURO [] raw))) in
   (re_search cleaned = None -> normalize_price raw = None) /\
   (forall m, re_search cleaned = Some m -> py_float m = None ->
              normalize_price raw = None) /\
   (normalize_price raw = None <-> re_search cleaned = None)).
Proof.
  split; [|split; [|split]].
  - intros Hraw. unfold normalize_price. rewrite re_search_none; [done|].
    apply replace_Forall; [repeat constructor; by rewrite is_digit_ascii|].
    apply strip_Forall.
    apply replace_Forall; [repeat constructor; by rewrite is_digit_ascii|].
    by apply replace_Forall.
  - intros Hnone. unfold normalize_price. by rewrite Hnone.
  - intros m Hm Hf. unfold normalize_price. by rewrite Hm, Hf.
  - unfold normalize_price.
    destruct (re_search _) as [m|] eqn:Hm; [|done].
    destruct (py_float_numeral m (re_search_numeral _ _ Hm)) as [x ->].
    split; discriminate.
Qed.

End PriceProps.

(* ===================================================================== *)
(** * Properties of the csv writer and reader                             *)
(* ===================================================================== *)

Section CsvProps.
Import Csv.

(** The field size limit of the reader. *)
Variable limit : N.






Lemma stream_crlf s opened :
  stream opened (CR :: LF :: s) = Chr CR :: Chr LF :: EOL :: stream false s.
Proof. reflexivity. Qed.



Lemma fits_app_l a b : fits limit (a ++ b) -> fits limit a.
Proof. unfold fits. rewrite length_app. lia. Qed.


















End CsvProps.

(* ===================================================================== *)
(** * Properties of the field extractor and of the page parser            *)
(* ===================================================================== *)

Section ExtractProps.
Context `{UnicodeData} {node : Type} `{Dom node}.

Lemma select_one_nil (n : node) sel : select n sel = [] -> select_one n sel = None.
Proof. unfold select_one. by intros ->. Qed.

Lemma select_one_cons (n : node) sel t rest :
  select n sel = t :: rest -> select_one n sel = Some t.
Proof. unfold select_one. by intros ->. Qed.

(** C6, as the code has it. The field extractor is total. The name and
    price text is empty when the selector matches nothing, and the stripped
    text of the first match otherwise. The image address is empty when the
    selector matches nothing; otherwise it is the [src] attribute of the
    first match when that attribute is there and not empty, else the
    [data-src] attribute when it is there, else empty. *)
Theorem extract_fields_total (n : node) (sel : text) :
  (select n sel = [] -> extract_text n sel = [] /\ extract_image n sel = []) /\
  (forall t rest, select n sel = t :: rest ->
     extract_text n sel = get_text t /\
     (forall s, get t (py "src") = Some s -> s <> [] -> extract_image n sel = s) /\
     (get t (py "src") = None \/ get t (py "src") = Some [] ->
        (forall d, get t (py "data-src") = Some d -> extract_image n sel = d) /\
        (get t (py "data-src") = None -> extract_image n sel = []))).
Proof.
  split.
  - intros Hs. unfold extract_text, extract_image. by rewrite (select_one_nil _ _ Hs).
  - intros t rest Hs. unfold extract_text, extract_image.
    rewrite (select_one_cons _ _ _ _ Hs). split; [done|]. split.
    + intros s -> Hne. destruct s; [done|]. reflexivity.
    + intros Hsrc. split.
      * intros d ->. destruct Hsrc as [-> | ->]; by destruct d.
      * intros ->. by destruct Hsrc as [-> | ->].
Qed.

Lemma find_next_page_eq (soup : node) (selectors : Selectors.t) :
  find_next_page soup selectors =
  match select soup (Selectors.next_page selectors) with
  | [] => None
  | link :: _ =>
      match get link (py "href") with
      | Some (c :: href) => Some (c :: href)
      | _ => None
      end
  end.
Proof.
  unfold find_next_page, select_one.
  destruct (select soup _) as [|link rest]; [done|]. simpl.
  by destruct (get link _) as [[|c h]|].
Qed.

(** C7. [find_next_page] returns the [href] of the first tag the next-page
    selector matches when that tag exists and its [href] is there and not
    empty, and nothing in every other case: no match, no [href], or an
    empty [href]. A page for which it returns nothing is the last one the
    loop requests. *)
Theorem find_next_page_spec (soup : node) (selectors : Selectors.t) :
  (forall href,
     find_next_page soup selectors = Some href <->
     exists link rest,
       select soup (Selectors.next_page selectors) = link :: rest /\
       get link (py "href") = Some href /\ href <> []) /\
  (find_next_page soup selectors = None <->
     select soup (Selectors.next_page selectors) = [] \/
     exists link rest,
       select soup (Selectors.next_page selectors) = link :: rest /\
       (get link (py "href") = None \/ get link (py "href") = Some [])) /\
  (find_next_page soup selectors = None ->
   forall (E : env node) fuel d mx coll seen url status w,
     truthy url = true -> site E url = Response status soup ->
     error_status status = false ->
     exists w',
       fetch_loop E (S fuel) selectors d mx coll seen (Some url) w
         = (Ok (coll ++ parse_cards soup selectors), w') /\
       w' = logged w [Fetch url]).
Proof.
  split; [|split].
  - intros href. rewrite find_next_page_eq.
    destruct (select soup _) as [|link rest]; [|destruct (get link _) as [[|c h]|] eqn:Hg].
    + split; [discriminate|]. by intros (l & r & [=] & _).
    + split; [discriminate|]. intros (l & r & [= <- <-] & Hg' & Hne). rewrite Hg in Hg'. by simplify_eq.
    + split.
      * intros [= <-]. by exists link, rest.
      * intros (l & r & [= <- <-] & Hg' & Hne). rewrite Hg in Hg'. by simplify_eq.
    + split; [discriminate|]. intros (l & r & [= <- <-] & Hg' & Hne). rewrite Hg in Hg'. by simplify_eq.
  - rewrite find_next_page_eq.
    destruct (select soup _) as [|link rest]; [|destruct (get link _) as [[|c h]|] eqn:Hg].
    + split; [by left | done].
    + split; [|done]. intros _. right. exists link, rest. auto.
    + split; [discriminate|].
      intros [[=] | (l & r & [= <- <-] & [Hg' | Hg'])]; rewrite Hg in Hg'; by simplify_eq.
    + split; [|done]. intros _. right. exists link, rest. auto.
  - intros Hnone E fuel d mx coll seen url status w Ht Hs He.
    eexists. split; [|reflexivity].
    rewrite (fetch_loop_step E _ _ _ _ _ _ _ _ _ _ Ht Hs He). cbv zeta.
    rewrite Hnone. by destruct (limit_reached mx (seen + 1)).
Qed.

End ExtractProps.

(* ===================================================================== *)
(** * Properties of the run as a whole                                    *)
(* ===================================================================== *)

Section MainProps.
Context `{UnicodeData} {node : Type} `{Dom node}.
Variable E : env node.

Lemma with_file_twice w path a b :
  with_file (with_file w path a) path b = with_file w path b.
Proof. unfold with_file; simpl. by rewrite insert_insert_eq. Qed.

Lemma encodable_app a b : encodable (a ++ b) = encodable a && encodable b.
Proof. apply forallb_app. Qed.

Lemma writerow_appends path row w old :
  files w !! path = Some old ->
  encodable (Csv.writerow (map (cell_text E) row)) = true ->
  writerow E path row w
  = (Ok tt, with_file w path (old ++ Csv.writerow (map (cell_text E) row))).
Proof. intros Hf He. unfold writerow. by rewrite He, Hf. Qed.

Lemma for_each_writerow path (rows : list (list cell)) : forall w old,
  files w !! path = Some old ->
  encodable (flat_map (fun row => Csv.writerow (map (cell_text E) row)) rows) = true ->
  for_each rows (fun row => writerow E path row) w
  = (Ok tt, with_file w path
              (old ++ flat_map (fun row => Csv.writerow (map (cell_text E) row)) rows)).
Proof.
  induction rows as [|row rows IH]; intros w old Hf He; cbn [for_each flat_map] in *.
  - unfold ret, with_file. rewrite app_nil_r, insert_id by done. by destruct w.
  - rewrite encodable_app in He. apply andb_prop in He as [He1 He2].
    unfold bind. rewrite (writerow_appends _ _ _ _ Hf He1).
    rewrite (IH _ (old ++ Csv.writerow (map (cell_text E) row))).
    + by rewrite with_file_twice, app_assoc.
    + apply lookup_insert_eq.
    + exact He2.
Qed.

Lemma for_each_map {A B} (f : A -> B) (body : B -> M unit) (xs : list A) w :
  for_each xs (fun x => body (f x)) w = for_each (map f xs) body w.
Proof.
  revert w. induction xs as [|x xs IH]; intros w; simpl; [done|].
  unfold bind. destruct (body (f x) w) as [[[]|e|] w1]; auto.
Qed.

(** When the file can be opened and the text can be encoded, [write_csv]
    leaves the header and one row per card in the file, and touches
    nothing else. *)
Lemma write_csv_spec cards path w :
  can_open E path = true ->
  encodable (csv_text E cards) = true ->
  write_csv E cards path w = (Ok tt, with_file w path (csv_text E cards)).
Proof.
  intros Hopen He. unfold write_csv, bind at 1, open_w. rewrite Hopen.
  change (for_each cards (fun card => writerow E path (card_row card)))
    with (for_each cards (fun card => (fun row => writerow E path row) (card_row card))).
  unfold csv_text in He. cbn [flat_map] in He.
  rewrite encodable_app in He. apply andb_prop in He as [He1 He2].
  unfold bind.
  match goal with |- context [writerow E path header ?w0] =>
    rewrite (writerow_appends path header w0 []) by (done || apply lookup_insert_eq) end.
  rewrite for_each_map.
  erewrite for_each_writerow by (done || apply lookup_insert_eq).
  unfold csv_text. simpl flat_map at 2.
  change {| files := <[path:=[]]> (files w); console := console w;
            log := log w; sheets := sheets w |} with (with_file w path []).
  by rewrite !with_file_twice.
Qed.







(** C3. When the request of the first page fails (no response, or a
    response with a status from 400 to 599), [fetch_cards] raises after
    that single request, before any card is collected, and [main] raises
    the same error without creating or writing any file. *)
Theorem first_page_failure_aborts fuel (args : Args) w :
  truthy (url args) = true ->
  (site E (url args) = NoResponse \/
   exists status soup,
     site E (url args) = Response status soup /\ error_status status = true) ->
  exists e,
    (forall sel d mx,
       fetch_cards E (S fuel) (url args) sel d mx w
       = (Raise e, logged w [Fetch (url args)])) /\
    main E (S fuel) args w = (Raise e, logged w [Fetch (url args)]) /\
    files (snd (main E (S fuel) args w)) = files w.
Proof.
  intros Ht Hf.
  destruct (session_get_fails E (url args) w Hf) as [e He].
  assert (Hfetch : forall sel d mx,
    fetch_cards E (S fuel) (url args) sel d mx w = (Raise e, logged w [Fetch (url args)])).
  { intros sel d mx. unfold fetch_cards. simpl. rewrite Ht. unfold bind. by rewrite He. }
  exists e. split; [exact Hfetch|].
  assert (Hmain : main E (S fuel) args w = (Raise e, logged w [Fetch (url args)])).
  { unfold main. unfold bind at 1. by rewrite Hfetch. }
  split; [exact Hmain|]. by rewrite Hmain.
Qed.

(** C9. When a spreadsheet identifier is given and either the credentials
    path is missing or the spreadsheet libraries are not installed, a run
    whose crawl and CSV export succeed (the file opens and the text can be
    encoded) ends with a fatal error ([SystemExit]
    for the missing credentials, [RuntimeError] for the missing libraries)
    raised before anything is sent to the spreadsheet; the CSV file holds
    the complete export and stays as written. *)
Theorem sheet_misconfiguration_keeps_csv fuel (args : Args) id cards w w1 :
  fetch_cards E fuel (url args) (args_selectors args) (delay args) (max_pages args) w
    = (Ok cards, w1) ->
  can_open E (output_csv args) = true ->
  encodable (csv_text E cards) = true ->
  google_sheet_id args = Some id -> truthy id = true ->
  truthy_opt (service_account args) = false \/ gspread_installed E = false ->
  exists w',
    main E fuel args w
      = (Raise (if truthy_opt (service_account args) then RuntimeError else SystemExit), w') /\
    files w' = <[output_csv args := csv_text E cards]> (files w) /\
    files w' !! output_csv args = Some (csv_text E cards) /\
    sheets w' = sheets w /\
    console w' = console w ++ [Wrote (length cards) (output_csv args)].
Proof.
  intros Hfetch Hopen Henc Hid Htid Hbad.
  pose proof Hfetch as Hlog. unfold fetch_cards in Hlog.
  apply fetch_loop_paced in Hlog as (tr & -> & _ & _).
  unfold main. fold (args_selectors args). unfold bind at 1. rewrite Hfetch.
  unfold bind at 1. rewrite (write_csv_spec _ _ _ Hopen Henc).
  rewrite Hid, Htid. unfold bind, print, push_to_google_sheet, raise, ret.
  destruct (truthy_opt (service_account args)) eqn:Hsa; simpl.
  - destruct Hbad as [|Hg]; [discriminate|]. rewrite Hg. simpl.
    eexists. split; [reflexivity|]. simpl.
    split; [done|]. split; [apply lookup_insert_eq|done].
  - eexists. split; [reflexivity|]. simpl.
    split; [done|]. split; [apply lookup_insert_eq|done].
Qed.

End MainProps.

(* ===================================================================== *)
(** * Further properties of the pagination driver                         *)
(* ===================================================================== *)

Section CrawlProps.
Context `{UnicodeData} {node : Type} `{Dom node}.
Variable E : env node.

(** Whatever the outcome, the loop changes nothing but the log, and what
    it returns starts with what was collected before. *)
Lemma fetch_loop_frame fuel sel d mx : forall coll seen next w r w',
  fetch_loop E fuel sel d mx coll seen next w = (r, w') ->
  exists tr, w' = logged w tr /\
             (forall cards, r = Ok cards -> exists more, cards = coll ++ more).
Proof.
  induction fuel as [|fuel IH]; intros coll seen next w r w' Hrun;
    destruct (truthy_opt next) eqn:Hnext.
  - destruct next as [[|c u]|]; try discriminate. simpl in Hrun.
    injection Hrun as <- <-. exists []. rewrite logged_nil. split; [done|discriminate].
  - rewrite fetch_loop_done in Hrun by done. injection Hrun as <- <-.
    exists []. rewrite logged_nil. split; [done|].
    intros cards [= <-]. exists []. by rewrite app_nil_r.
  - destruct next as [url|]; [|discriminate]. simpl in Hnext.
    destruct (site E url) as [|status soup] eqn:Hs.
    { destruct (fetch_loop_fails E fuel sel d mx coll seen url w Hnext) as [e He];
        [by left|]. rewrite He in Hrun. injection Hrun as <- <-.
      exists [Fetch url]. split; [done|discriminate]. }
    destruct (error_status status) eqn:Hst.
    { destruct (fetch_loop_fails E fuel sel d mx coll seen url w Hnext) as [e He];
        [right; eauto|]. rewrite He in Hrun. injection Hrun as <- <-.
      exists [Fetch url]. split; [done|discriminate]. }
    rewrite (fetch_loop_step E _ _ _ _ _ _ _ _ _ _ Hnext Hs Hst) in Hrun.
    cbv zeta in Hrun.
    destruct (limit_reached mx (seen + 1)).
    { injection Hrun as <- <-. exists [Fetch url]. split; [done|].
      intros cards [= <-]. eauto. }
    destruct (find_next_page soup sel) as [u|] eqn:Hn.
    2:{ injection Hrun as <- <-. exists [Fetch url]. split; [done|].
        intros cards [= <-]. eauto. }
    destruct (sleep_ok E d).
    2:{ injection Hrun as <- <-. exists [Fetch url; Sleep d]. split; [done|discriminate]. }
    apply IH in Hrun as (tr & -> & Hpre).
    exists ([Fetch url; Sleep d] ++ tr). rewrite logged_logged. split; [done|].
    intros cards Hc. destruct (Hpre cards Hc) as [more ->].
    exists (parse_cards soup sel ++ more). by rewrite app_assoc.
  - rewrite fetch_loop_done in Hrun by done. injection Hrun as <- <-.
    exists []. rewrite logged_nil. split; [done|].
    intros cards [= <-]. exists []. by rewrite app_nil_r.
Qed.

(** X1. Whatever [fetch_cards] does and however it ends, it leaves the
    files, the console and the spreadsheets as they were, and it only adds
    to the record of requests and pauses. *)
Theorem fetch_cards_touches_nothing fuel url sel d mx w :
  let w' := snd (fetch_cards E fuel url sel d mx w) in
  files w' = files w /\ console w' = console w /\ sheets w' = sheets w /\
  exists tr, log w' = log w ++ tr.
Proof.
  intros w'. subst w'.
  destruct (fetch_cards E fuel url sel d mx w) as [r w'] eqn:Hrun.
  apply fetch_loop_frame in Hrun as (tr & -> & _). simpl. eauto.
Qed.

Lemma crawl_log_cons d u u' urls :
  crawl_log d (u :: u' :: urls) = [Fetch u; Sleep d] ++ crawl_log d (u' :: urls).
Proof. reflexivity. Qed.

(** The loop on a row of pages, as long as the limit is not reached
    before the last of them. *)
Lemma fetch_loop_chain sel d mx urls pages :
  chain E sel urls pages ->
  (length urls = 1%nat \/ sleep_ok E d = true) ->
  forall fuel coll seen w,
  (forall k, (0 < k < length urls)%nat ->
             limit_reached mx (seen + Z.of_nat k) = false) ->
  (limit_reached mx (seen + Z.of_nat (length urls)) = true \/
   exists p, last_page pages = Some p /\ find_next_page p sel = None) ->
  fetch_loop E (length urls + fuel) sel d mx coll seen (hd_error urls) w
  = (Ok (coll ++ flat_map (fun p => parse_cards p sel) pages),
     logged w (crawl_log d urls)).
Proof.
  induction 1 as [u p status Ht Hs He | u p status u' urls pages Ht Hs He Hn Hch IH];
    intros Hd fuel coll seen w Hlim Hend.
  - cbn [length hd_error Nat.add].
    rewrite (fetch_loop_step E _ _ _ _ _ _ _ _ _ _ Ht Hs He). cbv zeta.
    cbn [flat_map]. rewrite app_nil_r.
    destruct Hend as [Hl | (p' & [= <-] & Hnone)].
    + cbn [length] in Hl. change (Z.of_nat 1) with 1 in Hl. by rewrite Hl.
    + rewrite Hnone. by destruct (limit_reached mx (seen + 1)).
  - destruct Hd as [Hd | Hd]; [discriminate|].
    cbn [length hd_error Nat.add].
    rewrite (fetch_loop_step E _ _ _ _ _ _ _ _ _ _ Ht Hs He). cbv zeta.
    assert (H1 : limit_reached mx (seen + 1) = false)
      by (apply (Hlim 1%nat); cbn [length]; lia).
    rewrite H1, Hn, Hd.
    pose proof (IH (or_intror Hd) fuel (coll ++ parse_cards p sel) (seen + 1)
                  (logged w [Fetch u; Sleep d])) as IH'.
    cbn [length hd_error Nat.add] in IH'. rewrite IH'.
    + rewrite logged_logged, crawl_log_cons. cbn [flat_map]. by rewrite app_assoc.
    + intros k Hk. replace (seen + 1 + Z.of_nat k) with (seen + Z.of_nat (S k)) by lia.
      apply Hlim. cbn [length] in *. lia.
    + destruct Hend as [Hl | (p' & Hlast & Hnone)].
      * left. rewrite <- Hl. f_equal. cbn [length]. lia.
      * right. exists p'. split; [|done].
        unfold last_page in *. inversion Hch; subst; exact Hlast.
Qed.

(** C10. A page limit of zero is no limit. For every site, start address
    and amount of fuel, [fetch_cards] with the limit 0 does exactly what it
    does without a limit: the test of the limit is never true. So a caller
    who passes 0 gets the full crawl and not an empty one: on any number of
    pages linked in a row, the last of which has no next link, every page is
    requested, in order, and the cards of all of them are returned; the
    first page is requested whatever the site, as soon as the start address
    is not empty. *)
Theorem fetch_cards_zero_is_unbounded sel d :
  (forall fuel url w,
     fetch_cards E fuel url sel d (Some 0) w = fetch_cards E fuel url sel d None w) /\
  (forall fuel urls pages u p w,
     chain E sel urls pages ->
     hd_error urls = Some u ->
     last_page pages = Some p -> find_next_page p sel = None ->
     (length urls = 1%nat \/ sleep_ok E d = true) ->
     fetch_cards E (length urls + fuel) u sel d (Some 0) w
     = (Ok (flat_map (fun p => parse_cards p sel) pages), logged w (crawl_log d urls)) /\
     fetches (crawl_log d urls) = urls /\
     length (fetches (crawl_log d urls)) = length pages) /\
  (forall fuel u w, truthy u = true ->
     exists tr, snd (fetch_cards E (S fuel) u sel d (Some 0) w)
                = logged w (Fetch u :: tr)).
Proof.
  split; [|split].
  - intros fuel url w. apply fetch_loop_zero_limit.
  - intros fuel urls pages u p w Hch Hu Hlast Hnone Hd.
    assert (Hf : fetches (crawl_log d urls) = urls).
    { clear. destruct urls as [|u0 urls]; [done|]. cbn [crawl_log fetches flat_map app].
      f_equal. induction urls as [|u' urls IH]; [done|]. cbn [flat_map app]. by rewrite IH. }
    split; [|split; [exact Hf|]].
    + unfold fetch_cards. rewrite <- Hu.
      rewrite (fetch_loop_chain sel d (Some 0) urls pages Hch Hd); [done|done|].
      right. eauto.
    + rewrite Hf. clear -Hch. induction Hch; cbn [length]; [done|]. by f_equal.
  - intros fuel u w Ht. unfold fetch_cards.
    destruct (site E u) as [|status soup] eqn:Hs.
    { destruct (fetch_loop_fails E fuel sel d (Some 0) [] 0 u w Ht) as [e ->];
        [by left|]. by exists []. }
    destruct (error_status status) eqn:Hst.
    { destruct (fetch_loop_fails E fuel sel d (Some 0) [] 0 u w Ht) as [e ->];
        [right; eauto|]. by exists []. }
    rewrite (fetch_loop_step E _ _ _ _ _ _ _ _ _ _ Ht Hs Hst). cbv zeta.
    cbn [limit_reached Z.eqb negb andb].
    destruct (find_next_page soup sel) as [u'|]; [|by exists []].
    destruct (sleep_ok E d); [|by exists [Sleep d]].
    destruct (fetch_loop E fuel sel d (Some 0) _ _ _ _) as [r w'] eqn:Hrun.
    apply fetch_loop_frame in Hrun as (tr & -> & _).
    exists (Sleep d :: tr). cbn [snd]. by rewrite logged_logged.
Qed.

(** X2. A crawl without a page limit through any number of pages linked in
    a row, the last of which has no next link, requests each page once, in
    order, pausing before every request but the first, and returns the
    cards of all the pages in page order. *)
Theorem fetch_cards_whole_chain fuel sel d urls pages u p w :
  chain E sel urls pages ->
  hd_error urls = Some u ->
  last_page pages = Some p -> find_next_page p sel = None ->
  (length urls = 1%nat \/ sleep_ok E d = true) ->
  fetch_cards E (length urls + fuel) u sel d None w
  = (Ok (flat_map (fun p => parse_cards p sel) pages), logged w (crawl_log d urls)) /\
  fetches (crawl_log d urls) = urls.
Proof.
  intros Hch Hu Hlast Hnone Hd. split.
  - unfold fetch_cards. rewrite <- Hu.
    rewrite (fetch_loop_chain sel d None urls pages Hch Hd); [done|done|].
    right. eauto.
  - clear. destruct urls as [|u0 urls]; [done|]. cbn [crawl_log fetches flat_map app].
    f_equal. induction urls as [|u' urls IH]; [done|]. cbn [flat_map app]. by rewrite IH.
Qed.

(** X3. With a page limit [m] of one or more and [m] pages linked in a
    row, the crawl requests exactly these [m] pages and returns their
    cards, whatever the last of them links to. *)
Theorem fetch_cards_first_pages fuel sel d urls pages u w :
  chain E sel urls pages ->
  hd_error urls = Some u ->
  (length urls = 1%nat \/ sleep_ok E d = true) ->
  fetch_cards E (length urls + fuel) u sel d (Some (Z.of_nat (length urls))) w
  = (Ok (flat_map (fun p => parse_cards p sel) pages), logged w (crawl_log d urls)) /\
  length (fetches (crawl_log d urls)) = length urls.
Proof.
  intros Hch Hu Hd. split.
  - unfold fetch_cards. rewrite <- Hu.
    rewrite (fetch_loop_chain sel d _ urls pages Hch Hd); [done| |].
    + intros k Hk. cbn [limit_reached].
      replace (Z.of_nat (length urls) <=? 0 + Z.of_nat k) with false
        by (symmetry; apply Z.leb_gt; lia).
      apply andb_false_r.
    + left. cbn [limit_reached].
      assert (Hne : urls <> []) by (by inversion Hch).
      destruct urls as [|u0 urls]; [done|].
      replace (Z.of_nat (length (u0 :: urls)) =? 0) with false
        by (symmetry; apply Z.eqb_neq; cbn [length]; lia).
      apply Z.leb_le. lia.
  - clear. destruct urls as [|u0 urls]; [done|]. cbn [crawl_log fetches flat_map app length].
    f_equal. induction urls as [|u' urls IH]; [done|]. cbn [flat_map app length].
    by rewrite IH.
Qed.

(** X20. A page limit larger than the site changes nothing: when the
    pages linked in a row are fewer than the limit and the last one has no
    next link, the crawl returns the cards of all of them, as it does
    without a limit. *)
Theorem fetch_cards_limit_beyond_site fuel sel d m urls pages u p w :
  chain E sel urls pages ->
  hd_error urls = Some u ->
  last_page pages = Some p -> find_next_page p sel = None ->
  (length urls = 1%nat \/ sleep_ok E d = true) ->
  Z.of_nat (length urls) <= m ->
  fetch_cards E (length urls + fuel) u sel d (Some m) w
  = (Ok (flat_map (fun p => parse_cards p sel) pages), logged w (crawl_log d urls)) /\
  fetch_cards E (length urls + fuel) u sel d (Some m) w
  = fetch_cards E (length urls + fuel) u sel d None w.
Proof.
  intros Hch Hu Hlast Hnone Hd Hm.
  assert (Hlim : fetch_cards E (length urls + fuel) u sel d (Some m) w
    = (Ok (flat_map (fun p => parse_cards p sel) pages), logged w (crawl_log d urls))).
  { unfold fetch_cards. rewrite <- Hu.
    rewrite (fetch_loop_chain sel d _ urls pages Hch Hd); [done| |right; eauto].
    intros k Hk. cbn [limit_reached].
    replace (m <=? 0 + Z.of_nat k) with false by (symmetry; apply Z.leb_gt; lia).
    apply andb_false_r. }
  split; [exact Hlim|]. rewrite Hlim. unfold fetch_cards. rewrite <- Hu.
  rewrite (fetch_loop_chain sel d None urls pages Hch Hd); [done|done|right; eauto].
Qed.

Lemma fetches_app a b : fetches (a ++ b) = fetches a ++ fetches b.
Proof. apply flat_map_app. Qed.

(** With a limit other than zero the loop makes at most as many requests
    as pages are left before the limit, and one at least when it runs. *)
Lemma fetch_loop_bound fuel sel d m :
  m <> 0 -> forall coll seen next w r w',
  fetch_loop E fuel sel d (Some m) coll seen next w = (r, w') ->
  exists tr, w' = logged w tr /\
             (length (fetches tr) <= Z.to_nat (Z.max 1 (m - seen)))%nat.
Proof.
  intros Hm.
  induction fuel as [|fuel IH]; intros coll seen next w r w' Hrun;
    destruct (truthy_opt next) eqn:Hnext.
  - destruct next as [[|c u]|]; try discriminate. simpl in Hrun.
    injection Hrun as <- <-. exists []. rewrite logged_nil. split; [done|simpl; lia].
  - rewrite fetch_loop_done in Hrun by done. injection Hrun as <- <-.
    exists []. rewrite logged_nil. split; [done|simpl; lia].
  - destruct next as [url|]; [|discriminate]. simpl in Hnext.
    assert (Hone : (length (fetches [Fetch url]) <= Z.to_nat (Z.max 1 (m - seen)))%nat)
      by (simpl; lia).
    assert (Hone' : (length (fetches [Fetch url; Sleep d])
                     <= Z.to_nat (Z.max 1 (m - seen)))%nat) by (simpl; lia).
    destruct (site E url) as [|status soup] eqn:Hs.
    { destruct (fetch_loop_fails E fuel sel d (Some m) coll seen url w Hnext) as [e He];
        [by left|]. rewrite He in Hrun. injection Hrun as <- <-. eauto. }
    destruct (error_status status) eqn:Hst.
    { destruct (fetch_loop_fails E fuel sel d (Some m) coll seen url w Hnext) as [e He];
        [right; eauto|]. rewrite He in Hrun. injection Hrun as <- <-. eauto. }
    rewrite (fetch_loop_step E _ _ _ _ _ _ _ _ _ _ Hnext Hs Hst) in Hrun.
    cbv zeta in Hrun.
    destruct (limit_reached (Some m) (seen + 1)) eqn:Hl.
    { injection Hrun as <- <-. eauto. }
    destruct (find_next_page soup sel) as [u|] eqn:Hn.
    2:{ injection Hrun as <- <-. eauto. }
    destruct (sleep_ok E d).
    2:{ injection Hrun as <- <-. eauto. }
    apply IH in Hrun as (tr & -> & Hlen).
    exists ([Fetch url; Sleep d] ++ tr). rewrite logged_logged. split; [done|].
    rewrite fetches_app, length_app.
    cbn [limit_reached] in Hl. apply andb_false_iff in Hl as [Hl | Hl].
    + apply negb_false_iff, Z.eqb_eq in Hl. done.
    + apply Z.leb_gt in Hl. simpl. lia.
  - rewrite fetch_loop_done in Hrun by done. injection Hrun as <- <-.
    exists []. rewrite logged_nil. split; [done|simpl; lia].
Qed.

(** X4. With a page limit other than zero, [fetch_cards] never makes more
    requests than the limit says, whatever the site answers and however
    the run ends; a negative limit allows one request. *)
Theorem fetch_cards_within_limit fuel url sel d m w :
  m <> 0 ->
  exists tr,
    snd (fetch_cards E fuel url sel d (Some m) w) = logged w tr /\
    (length (fetches tr) <= Z.to_nat (Z.max 1 m))%nat.
Proof.
  intros Hm.
  destruct (fetch_cards E fuel url sel d (Some m) w) as [r w'] eqn:Hrun.
  unfold fetch_cards in Hrun.
  apply (fetch_loop_bound _ _ _ _ Hm) in Hrun as (tr & -> & Hlen).
  exists tr. split; [done|]. by rewrite Z.sub_0_r in Hlen.
Qed.

(** X5. On a part of the site where every page answers and links to a page
    of the same part (a page that links to itself, a cycle of pages), a
    crawl without a page limit never returns: whatever the fuel, the loop
    is still running when it is spent. *)
Theorem fetch_cards_endless (inside : text -> Prop) sel d :
  (forall u, inside u ->
     truthy u = true /\
     exists status p u',
       site E u = Response status p /\ error_status status = false /\
       find_next_page p sel = Some u' /\ inside u') ->
  sleep_ok E d = true ->
  forall fuel u w, inside u ->
    fst (fetch_cards E fuel u sel d None w) = Running.
Proof.
  intros Hin Hd fuel u w Hu. unfold fetch_cards.
  generalize (@nil Card) 0. revert u w Hu.
  induction fuel as [|fuel IH]; intros u w Hu coll seen;
    destruct (Hin u Hu) as (Ht & status & p & u' & Hs & He & Hn & Hu').
  - simpl. by rewrite Ht.
  - rewrite (fetch_loop_step E _ _ _ _ _ _ _ _ _ _ Ht Hs He). cbv zeta.
    cbn [limit_reached]. rewrite Hn, Hd. by apply IH.
Qed.

(** X6. When [time.sleep] rejects the delay (a negative one, for
    instance), a crawl whose first page has a next link and is not the last
    one allowed stops with that error after the first request: the second
    page is never requested. A page without a next link is crawled as
    usual, the delay is not looked at. *)
Theorem fetch_cards_rejected_delay fuel sel d mx u status p u' w :
  truthy u = true ->
  site E u = Response status p -> error_status status = false ->
  sleep_ok E d = false ->
  (find_next_page p sel = Some u' -> limit_reached mx 1 = false ->
   fetch_cards E (S fuel) u sel d mx w
   = (Raise SleepError, logged w [Fetch u; Sleep d])) /\
  (find_next_page p sel = None ->
   fetch_cards E (S fuel) u sel d mx w
   = (Ok (parse_cards p sel), logged w [Fetch u])).
Proof.
  intros Ht Hs He Hd. unfold fetch_cards.
  rewrite (fetch_loop_step E _ _ _ _ _ _ _ _ _ _ Ht Hs He). cbv zeta.
  change (0 + 1) with 1. split.
  - intros -> ->. by rewrite Hd.
  - intros ->. by destruct (limit_reached mx 1).
Qed.

End CrawlProps.

(* ===================================================================== *)
(** * Further properties of the exporters and of the run                  *)
(* ===================================================================== *)

Section ExportProps.
Context `{UnicodeData} {node : Type} `{Dom node}.
Variable E : env node.

Lemma with_file_lookup w path content :
  files (with_file w path content) !! path = Some content.
Proof. apply lookup_insert_eq. Qed.

Lemma with_file_other w path content other :
  other <> path -> files (with_file w path content) !! other = files w !! other.
Proof. intros Hne. simpl. by apply lookup_insert_ne. Qed.

(** X7. A successful [write_csv] replaces the file: its content afterwards
    is the export and owes nothing to what the file held before; the other
    files, the console and the spreadsheets are untouched. *)
Theorem write_csv_overwrites cards path w :
  can_open E path = true -> encodable (csv_text E cards) = true ->
  exists w',
    write_csv E cards path w = (Ok tt, w') /\
    files w' !! path = Some (csv_text E cards) /\
    (forall other, other <> path -> files w' !! other = files w !! other) /\
    console w' = console w /\ log w' = log w /\ sheets w' = sheets w /\
    (forall old, write_csv E cards path (with_file w path old) = (Ok tt, w')).
Proof.
  intros Hopen Henc. exists (with_file w path (csv_text E cards)).
  split; [by apply write_csv_spec|].
  split; [apply with_file_lookup|].
  split; [intros other Hne; by apply with_file_other|].
  repeat (split; [reflexivity|]).
  intros old. rewrite write_csv_spec by done. by rewrite with_file_twice.
Qed.

Lemma for_each_app {A} (body : A -> M unit) xs ys w :
  for_each (xs ++ ys) body w = (for_each xs body ;; for_each ys body) w.
Proof.
  revert w. induction xs as [|x xs IH]; intros w; cbn [app for_each].
  - reflexivity.
  - unfold bind in *. destruct (body x w) as [[[]|e|] w1]; [|done|done].
    by rewrite IH.
Qed.

(** X8. The two ways [write_csv] fails. When the file cannot be opened it
    raises [OSError] and nothing changes. When a record cannot be encoded
    it raises [UnicodeEncodeError] at that record: the file, emptied when it
    was opened, is left with the header and the records written before. *)
Theorem write_csv_failures path w :
  (forall cards, can_open E path = false ->
     write_csv E cards path w = (Raise OSError, w)) /\
  (forall good bad rest,
     can_open E path = true ->
     encodable (csv_text E good) = true ->
     encodable (Csv.writerow (map (cell_text E) (card_row bad))) = false ->
     write_csv E (good ++ bad :: rest) path w
     = (Raise UnicodeEncodeError, with_file w path (csv_text E good))).
Proof.
  split.
  - intros cards Hopen. unfold write_csv, bind, open_w. by rewrite Hopen.
  - intros good bad rest Hopen Hgood Hbad.
    pose proof (write_csv_spec E good path w Hopen Hgood) as Hw.
    unfold write_csv in *. unfold bind at 1. unfold bind at 1 in Hw.
    destruct (open_w E path w) as [[[]|e|] w1]; try discriminate.
    unfold bind at 1. unfold bind at 1 in Hw.
    destruct (writerow E path header w1) as [[[]|e|] w2]; try discriminate.
    rewrite for_each_app. unfold bind at 1. rewrite Hw.
    cbn [for_each]. unfold bind, writerow. by rewrite Hbad.
Qed.

(** The upload once the libraries are there and the worksheet is found:
    what happens depends on how the two calls end. *)
Lemma push_to_google_sheet_run cards id ws cred w :
  gspread_installed E = true -> sheet_ok E cred id ws = true ->
  push_to_google_sheet E cards id ws cred w =
  match clear_reply E id ws with
  | Refused => (Raise SheetError, w)
  | Lost => (Raise SheetError, with_rows w (id, ws) [])
  | Done =>
      match append_reply E id ws (header :: map card_row cards) with
      | Done => (Ok tt, with_rows w (id, ws) (header :: map card_row cards))
      | Refused => (Raise SheetError, with_rows w (id, ws) [])
      | Lost => (Raise SheetError, with_rows w (id, ws) (header :: map card_row cards))
      end
  end.
Proof.
  intros Hg Hok. unfold push_to_google_sheet. rewrite Hg, Hok. cbn [negb].
  unfold bind, ret, ws_clear, ws_append_rows, service_call. cbn [fst snd].
  destruct (clear_reply E id ws); [|reflexivity|reflexivity].
  destruct (append_reply E id ws _); cbn [sheets files console log];
    unfold with_rows; by rewrite ?lookup_insert_eq, ?insert_insert_eq.
Qed.

(** X9. What the upload leaves behind. Whatever happens, it touches
    nothing but the one worksheet. When it returns, the worksheet holds the
    header row and one row per card, whatever it held before. When it
    raises, the worksheet holds what it held before, or nothing, or the
    whole export, never a part of it. It is not atomic: when [clear] is
    carried out and [append_rows] is refused, the old rows are gone and the
    worksheet is left empty. *)
Theorem push_to_google_sheet_outcomes cards id ws cred w :
  let rows := header :: map card_row cards in
  let r := push_to_google_sheet E cards id ws cred w in
  (files (snd r) = files w /\ console (snd r) = console w /\ log (snd r) = log w /\
   forall key, key <> (id, ws) -> sheets (snd r) !! key = sheets w !! key) /\
  (fst r = Ok tt -> sheets (snd r) !! (id, ws) = Some rows) /\
  (fst r <> Ok tt ->
     sheets (snd r) !! (id, ws) = sheets w !! (id, ws) \/
     sheets (snd r) !! (id, ws) = Some [] \/
     sheets (snd r) !! (id, ws) = Some rows) /\
  (gspread_installed E = true -> sheet_ok E cred id ws = true ->
   clear_reply E id ws = Done -> append_reply E id ws rows = Refused ->
   r = (Raise SheetError, with_rows w (id, ws) [])).
Proof.
  intros rows r. subst r rows.
  destruct (gspread_installed E) eqn:Hg.
  2:{ unfold push_to_google_sheet. rewrite Hg. cbn [negb]. unfold raise. cbn [fst snd].
      repeat split; try done. by left. }
  destruct (sheet_ok E cred id ws) eqn:Hok.
  2:{ unfold push_to_google_sheet. rewrite Hg, Hok. cbn [negb]. unfold bind, raise.
      cbn [fst snd]. repeat split; try done. by left. }
  rewrite push_to_google_sheet_run by done.
  assert (Hframe : forall content,
    files (with_rows w (id, ws) content) = files w /\
    console (with_rows w (id, ws) content) = console w /\
    log (with_rows w (id, ws) content) = log w /\
    forall key, key <> (id, ws) ->
      sheets (with_rows w (id, ws) content) !! key = sheets w !! key).
  { intros content. repeat split. intros key Hne. by apply lookup_insert_ne. }
  assert (Hlook : forall content,
    sheets (with_rows w (id, ws) content) !! (id, ws) = Some content)
    by (intros; apply lookup_insert_eq).
  destruct (clear_reply E id ws);
    [destruct (append_reply E id ws _)| |]; cbn [fst snd];
    (split; [first [apply Hframe | by repeat split]|]);
    (split; [intros; first [done | apply Hlook]|]);
    (split; [intros _; rewrite ?Hlook; auto|]); by intros.
Qed.

(** X10. No partial export: when the crawl raises, at whatever page, [main]
    raises the same error and has written no file, printed nothing and sent
    nothing to the spreadsheet. *)
Theorem main_crawl_failure fuel (args : Args) w e w1 :
  fetch_cards E fuel (url args) (args_selectors args) (delay args) (max_pages args) w
    = (Raise e, w1) ->
  main E fuel args w = (Raise e, w1) /\
  files w1 = files w /\ console w1 = console w /\ sheets w1 = sheets w.
Proof.
  intros Hfetch. split.
  - unfold main. fold (args_selectors args). unfold bind at 1. by rewrite Hfetch.
  - unfold fetch_cards in Hfetch.
    apply (fetch_loop_frame E) in Hfetch as (tr & -> & _). done.
Qed.

(** What [main] does up to the spreadsheet options, when the crawl and the
    export succeed. *)
Lemma main_after_csv fuel (args : Args) cards w w1 :
  fetch_cards E fuel (url args) (args_selectors args) (delay args) (max_pages args) w
    = (Ok cards, w1) ->
  can_open E (output_csv args) = true ->
  encodable (csv_text E cards) = true ->
  main E fuel args w =
  let w2 :=
    {| files := <[output_csv args := csv_text E cards]> (files w1);
       console := console w1 ++ [Wrote (length cards) (output_csv args)];
       log := log w1; sheets := sheets w1 |} in
  match google_sheet_id args with
  | Some id =>
      if truthy id then
        ((if negb (truthy_opt (service_account args)) then raise SystemExit
          else ret tt) ;;
         push_to_google_sheet E cards id (worksheet args)
                              (default [] (service_account args)) ;;
         print (Uploaded (length cards) id (worksheet args))) w2
      else (Ok tt, w2)
  | None => (Ok tt, w2)
  end.
Proof.
  intros Hfetch Hopen Henc.
  unfold main. fold (args_selectors args). unfold bind at 1. rewrite Hfetch.
  unfold bind at 1. rewrite (write_csv_spec E _ _ _ Hopen Henc).
  unfold bind at 1. unfold print at 1. cbv zeta.
  destruct (google_sheet_id args) as [id|]; [|reflexivity].
  by destruct (truthy id).
Qed.

(** X11. Without a spreadsheet identifier, or with an empty one, a run
    whose crawl and export succeed returns normally: the output file holds
    the header and one record per card, one line is printed with the number
    of cards, and no spreadsheet is touched, even if credentials were
    given. *)
Theorem main_exports_csv fuel (args : Args) cards w w1 :
  fetch_cards E fuel (url args) (args_selectors args) (delay args) (max_pages args) w
    = (Ok cards, w1) ->
  can_open E (output_csv args) = true ->
  encodable (csv_text E cards) = true ->
  truthy_opt (google_sheet_id args) = false ->
  exists w',
    main E fuel args w = (Ok tt, w') /\
    files w' = <[output_csv args := csv_text E cards]> (files w) /\
    console w' = console w ++ [Wrote (length cards) (output_csv args)] /\
    sheets w' = sheets w.
Proof.
  intros Hfetch Hopen Henc Hid.
  rewrite (main_after_csv _ _ _ _ _ Hfetch Hopen Henc). cbv zeta.
  unfold fetch_cards in Hfetch.
  apply (fetch_loop_frame E) in Hfetch as (tr & -> & _).
  destruct (google_sheet_id args) as [[|c id]|]; try discriminate;
    eexists; (split; [reflexivity|]); done.
Qed.

(** X12. With a spreadsheet identifier, credentials, the libraries
    installed and a service that finds the worksheet and carries out both
    calls, a run whose crawl and export succeed writes the file, replaces
    the worksheet by the header row and one row per card, and prints the
    two lines, in that order. *)
Theorem main_uploads fuel (args : Args) cards id cred w w1 :
  fetch_cards E fuel (url args) (args_selectors args) (delay args) (max_pages args) w
    = (Ok cards, w1) ->
  can_open E (output_csv args) = true ->
  encodable (csv_text E cards) = true ->
  google_sheet_id args = Some id -> truthy id = true ->
  service_account args = Some cred -> truthy cred = true ->
  gspread_installed E = true ->
  sheet_ok E cred id (worksheet args) = true ->
  clear_reply E id (worksheet args) = Done ->
  append_reply E id (worksheet args) (header :: map card_row cards) = Done ->
  exists w',
    main E fuel args w = (Ok tt, w') /\
    files w' = <[output_csv args := csv_text E cards]> (files w) /\
    sheets w' = <[(id, worksheet args) := header :: map card_row cards]> (sheets w) /\
    console w' = console w ++ [Wrote (length cards) (output_csv args);
                               Uploaded (length cards) id (worksheet args)].
Proof.
  intros Hfetch Hopen Henc Hid Htid Hsa Htsa Hg Hok Hclear Happend.
  rewrite (main_after_csv _ _ _ _ _ Hfetch Hopen Henc). cbv zeta.
  unfold fetch_cards in Hfetch.
  apply (fetch_loop_frame E) in Hfetch as (tr & -> & _).
  rewrite Hid, Htid, Hsa. cbn [truthy_opt default]. rewrite Htsa. cbn [negb].
  unfold bind at 1. unfold ret at 1. unfold bind at 1.
  change (Datatypes.id cred) with cred.
  rewrite push_to_google_sheet_run, Hclear, Happend by done. unfold print.
  eexists. split; [reflexivity|]. cbn [files sheets console logged with_rows].
  split; [done|]. split; [done|]. by rewrite <- app_assoc.
Qed.

(** X21. An upload that fails half way. When the worksheet is found and
    emptied and the service then refuses the rows, the run ends with the
    error: the CSV file is complete, the first line only is printed, and
    the worksheet is left empty, its old rows lost. *)
Theorem main_upload_refused fuel (args : Args) cards id cred w w1 :
  fetch_cards E fuel (url args) (args_selectors args) (delay args) (max_pages args) w
    = (Ok cards, w1) ->
  can_open E (output_csv args) = true ->
  encodable (csv_text E cards) = true ->
  google_sheet_id args = Some id -> truthy id = true ->
  service_account args = Some cred -> truthy cred = true ->
  gspread_installed E = true ->
  sheet_ok E cred id (worksheet args) = true ->
  clear_reply E id (worksheet args) = Done ->
  append_reply E id (worksheet args) (header :: map card_row cards) = Refused ->
  exists w',
    main E fuel args w = (Raise SheetError, w') /\
    files w' !! output_csv args = Some (csv_text E cards) /\
    sheets w' !! (id, worksheet args) = Some [] /\
    console w' = console w ++ [Wrote (length cards) (output_csv args)].
Proof.
  intros Hfetch Hopen Henc Hid Htid Hsa Htsa Hg Hok Hclear Happend.
  rewrite (main_after_csv _ _ _ _ _ Hfetch Hopen Henc). cbv zeta.
  unfold fetch_cards in Hfetch.
  apply (fetch_loop_frame E) in Hfetch as (tr & -> & _).
  rewrite Hid, Htid, Hsa. cbn [truthy_opt default]. rewrite Htsa. cbn [negb].
  unfold bind at 1. unfold ret at 1. unfold bind at 1.
  change (Datatypes.id cred) with cred.
  rewrite push_to_google_sheet_run, Hclear, Happend by done.
  eexists. split; [reflexivity|]. cbn [files sheets console logged with_rows].
  split; [apply lookup_insert_eq|]. split; [apply lookup_insert_eq|done].
Qed.

(** X13. An empty start address is no address: [fetch_cards] makes no
    request and returns no card, whatever the fuel and the limit, and the
    run exports a file that holds the header alone. *)
Theorem main_empty_url fuel (args : Args) w :
  url args = [] ->
  (forall sel d mx, fetch_cards E fuel [] sel d mx w = (Ok [], w)) /\
  (can_open E (output_csv args) = true ->
   google_sheet_id args = None ->
   exists w',
     main E fuel args w = (Ok tt, w') /\
     files w' !! output_csv args = Some (py "name,price,image_url" ++ [CR; LF]) /\
     log w' = log w).
Proof.
  intros Hurl.
  assert (Hfetch : forall sel d mx, fetch_cards E fuel [] sel d mx w = (Ok [], w))
    by (intros; by destruct fuel).
  split; [exact Hfetch|]. intros Hopen Hid.
  rewrite (main_after_csv fuel args [] w w); [|by rewrite Hurl|done|done].
  rewrite Hid. cbv zeta. eexists. split; [reflexivity|]. cbn [files log].
  split; [|done]. rewrite lookup_insert_eq. reflexivity.
Qed.

End ExportProps.

(* ===================================================================== *)
(** * Further properties of the price normalizer                          *)
(* ===================================================================== *)

Section RoundingProps.

Lemma shr_1_nonneg mrs : shr_nonneg mrs -> shr_nonneg (shr_1 mrs).
Proof.
  destruct mrs as [m r s]. unfold shr_nonneg. cbn [shr_m shr_1].
  destruct m as [|[p|p|]|[p|p|]]; cbn [shr_m]; lia.
Qed.

Lemma iter_pos_nonneg n : forall mrs,
  shr_nonneg mrs -> shr_nonneg (SpecFloat.iter_pos shr_1 n mrs).
Proof.
  induction n as [n IH|n IH|]; intros mrs Hm; cbn [SpecFloat.iter_pos].
  - by apply IH, IH, shr_1_nonneg.
  - by apply IH, IH.
  - by apply shr_1_nonneg.
Qed.

Lemma shr_fexp_nonneg prec emax m e l :
  0 <= m -> shr_nonneg (fst (shr_fexp prec emax m e l)).
Proof.
  intros Hm. unfold shr_fexp, shr.
  assert (H0 : shr_nonneg (shr_record_of_loc m l))
    by (unfold shr_nonneg; by destruct l as [|[]]).
  destruct (_ - e) as [|p|p]; cbn [fst]; [done| |done].
  by apply iter_pos_nonneg.
Qed.

Lemma round_nearest_even_nonneg m l : 0 <= m -> 0 <= round_nearest_even m l.
Proof. intros Hm. destruct l as [|[]]; cbn; [done| |done|lia]. destruct (Z.even m); lia. Qed.

Lemma binary_round_aux_not_nan prec emax sx mx ex lx :
  0 <= mx -> binary_round_aux prec emax sx mx ex lx <> S754_nan.
Proof.
  intros Hm. unfold binary_round_aux.
  pose proof (shr_fexp_nonneg prec emax mx ex lx Hm) as H1.
  destruct (shr_fexp prec emax mx ex lx) as [mrs' e']. cbn [fst] in H1.
  pose proof (shr_fexp_nonneg prec emax
                (round_nearest_even (shr_m mrs') (loc_of_shr_record mrs')) e' loc_Exact
                (round_nearest_even_nonneg _ _ H1)) as H2.
  destruct (shr_fexp prec emax _ e' loc_Exact) as [mrs'' e'']. cbn [fst] in H2.
  unfold shr_nonneg in H2.
  destruct (shr_m mrs'') as [|m|m]; [done| |lia].
  by destruct (e'' <=? emax - prec).
Qed.

Lemma binary_normalize_not_nan prec emax m e szero :
  binary_normalize prec emax m e szero <> S754_nan.
Proof.
  unfold binary_normalize, binary_round.
  destruct m as [|m|m]; [done| |];
    destruct (shl_align _ _ _) as [mz ez]; by apply binary_round_aux_not_nan.
Qed.

Lemma round_ratio_not_nan neg p q : round_ratio neg p q <> S754_nan.
Proof.
  unfold round_ratio. destruct (p =? 0); [done|]. apply binary_normalize_not_nan.
Qed.

End RoundingProps.

Section PriceMore.
Context `{UnicodeData}.

Lemma float_of_numeral_not_nan neg body :
  float_of_numeral neg body <> Some S754_nan.
Proof.
  unfold float_of_numeral. destruct (split_period body) as [ip fp].
  destruct (ip ++ _); [done|].
  destruct (digit_values ip); [|done]. destruct (digit_values _); [|done].
  intros [= Hx]. by apply round_ratio_not_nan in Hx.
Qed.

(** X14. A price is never the float NaN: [normalize_price] returns either
    nothing or a zero, a finite float or an infinity. *)
Theorem normalize_price_not_nan raw : normalize_price raw <> Some S754_nan.
Proof.
  unfold normalize_price. destruct (re_search _) as [m|]; [|done].
  destruct (py_float m) as [x|] eqn:Hx; [|done]. intros [= ->].
  unfold py_float in Hx.
  destruct m as [|c m]; [by apply float_of_numeral_not_nan in Hx|].
  destruct (N.eqb c MINUS); [by apply float_of_numeral_not_nan in Hx|].
  destruct (N.eqb c 43); by apply float_of_numeral_not_nan in Hx.
Qed.

(** ** Texts with a digit *)

Lemma match_here_digit c s : is_digit c = true -> match_here (c :: s) <> None.
Proof.
  intros Hc. destruct (digit_not_punctuation c Hc) as (Hm & _).
  unfold match_here. rewrite Hm. unfold match_unsigned. cbn [span_digits]. rewrite Hc.
  destruct (span_digits s) as [ds rest].
  destruct rest as [|r rest]; [done|]. destruct (N.eqb r PERIOD); [|done].
  by destruct (span_digits rest) as [[|f fs] rest'].
Qed.

Lemma re_search_digit s :
  Exists (fun c => is_digit c = true) s -> re_search s <> None.
Proof.
  induction s as [|c s IH]; intros Hex; [by inversion Hex|].
  rewrite re_search_cons. destruct (match_here (c :: s)) eqn:Hm; [done|].
  apply IH. inversion Hex as [? ? Hc|]; subst; [|done].
  by apply match_here_digit with (s := s) in Hc.
Qed.

Lemma replace_keeps old new s c :
  N.eqb c old = false -> In c s -> In c (replace old new s).
Proof.
  intros Hc. unfold replace. induction s as [|x s IH]; [done|].
  intros [-> | Hin]; cbn [flat_map]; apply in_or_app.
  - left. rewrite Hc. by left.
  - right. by apply IH.
Qed.

Lemma lstrip_keeps s c : is_space c = false -> In c s -> In c (lstrip s).
Proof.
  intros Hc. induction s as [|x s IH]; [done|]. cbn [lstrip].
  destruct (is_space x) eqn:Hx; [|done].
  intros [-> | Hin]; [congruence | by apply IH].
Qed.

Lemma strip_keeps s c : is_space c = false -> In c s -> In c (strip s).
Proof.
  intros Hc Hin. unfold strip, rstrip.
  apply in_rev. rewrite rev_involutive.
  apply lstrip_keeps; [done|]. apply in_rev. rewrite rev_involutive.
  by apply lstrip_keeps.
Qed.

(** X15. A price text that holds an ASCII digit always has a price: the
    cleaning steps keep the digit, the pattern finds a number, and [float]
    accepts it. With C5 this tells when a price is absent. *)
Theorem normalize_price_present raw c :
  In c raw -> ascii_digit c = true ->
  exists x, normalize_price raw = Some x.
Proof.
  intros Hin Hc. destruct (ascii_digit_facts c Hc) as (_ & _ & _ & He & Hn & Hco & Hsp).
  unfold normalize_price.
  destruct (re_search _) as [m|] eqn:Hm.
  - destruct (py_float_numeral m (re_search_numeral _ _ Hm)) as [x ->]. eauto.
  - exfalso. revert Hm. apply re_search_digit. apply List.Exists_exists.
    exists c. split; [|by apply ascii_digit_is_digit].
    apply replace_keeps; [done|]. apply strip_keeps; [done|].
    apply replace_keeps; [done|]. by apply replace_keeps.
Qed.

(** ** Other shapes of price text *)

(** What is left of a text after the currency signs are taken out and the
    blanks trimmed, when its core has neither and is not blank at its
    ends. *)
Lemma strip_core pre body post b tl init c :
  Forall (fun x => decoration x = true) pre ->
  Forall (fun x => decoration x = true) post ->
  Forall (fun x => N.eqb x EURO = false) body ->
  Forall (fun x => N.eqb x NBSP = false) body ->
  body = b :: tl -> body = init ++ [c] ->
  is_space b = false -> is_space c = false ->
  strip (replace NBSP [SPACE] (replace EURO [] (pre ++ body ++ post))) = body.
Proof.
  intros Hpre Hpost He Hn Hb Hl Bb Bc.
  rewrite !replace_app, (replace_absent EURO [] body He), (replace_absent NBSP _ body Hn).
  pose proof (decoration_blanks pre Hpre) as Bpre.
  pose proof (decoration_blanks post Hpost) as Bpost.
  unfold strip. rewrite lstrip_blanks by done.
  rewrite Hb at 1. cbn [app]. rewrite lstrip_head by done.
  rewrite app_comm_cons, <- Hb, Hl. rewrite rstrip_blanks by done. reflexivity.
Qed.

Lemma re_search_head s m : match_here s = Some m -> re_search s = Some m.
Proof. intros Hm. destruct s; cbn [re_search]; by rewrite Hm. Qed.

Lemma is_digit_period : is_digit PERIOD = false.
Proof. by rewrite is_digit_ascii. Qed.

Lemma match_unsigned_frac ds fs tail :
  ds <> [] -> Forall (fun c => is_digit c = true) ds ->
  fs <> [] -> Forall (fun c => is_digit c = true) fs ->
  starts_without_digit tail ->
  match_unsigned (ds ++ PERIOD :: fs ++ tail) = Some (ds ++ PERIOD :: fs).
Proof.
  intros Nd Hd Nf Hf Ht. unfold match_unsigned.
  rewrite (span_digits_run ds (PERIOD :: fs ++ tail)) by (done || apply is_digit_period).
  destruct ds as [|d ds]; [done|]. rewrite N.eqb_refl.
  rewrite (span_digits_run fs tail) by done. by destruct fs.
Qed.

Lemma match_unsigned_int ds :
  ds <> [] -> Forall (fun c => is_digit c = true) ds -> match_unsigned ds = Some ds.
Proof.
  intros Nd Hd. unfold match_unsigned.
  pose proof (span_digits_run ds [] Hd I) as Hs. rewrite app_nil_r in Hs.
  rewrite Hs. by destruct ds.
Qed.

Lemma match_here_unsigned c s :
  is_digit c = true -> match_here (c :: s) = match_unsigned (c :: s).
Proof.
  intros Hc. destruct (digit_not_punctuation c Hc) as (Hm & _).
  unfold match_here. by rewrite Hm.
Qed.

Lemma match_here_signed s m :
  match_unsigned s = Some m -> match_here (MINUS :: s) = Some (MINUS :: m).
Proof. intros Hm. unfold match_here. by rewrite N.eqb_refl, Hm. Qed.

Lemma ascii_digits_are_digits ds :
  Forall (fun c => ascii_digit c = true) ds -> Forall (fun c => is_digit c = true) ds.
Proof. intros Hd. eapply Forall_impl; [exact Hd|]. apply ascii_digit_is_digit. Qed.

Lemma float_of_numeral_frac neg d1 d2 :
  Forall (fun c => ascii_digit c = true) d1 ->
  Forall (fun c => ascii_digit c = true) d2 ->
  d1 <> [] ->
  float_of_numeral neg (d1 ++ PERIOD :: d2)
  = Some (round_ratio neg (number_of (map digit_value (d1 ++ d2)))
                      (10 ^ Z.of_nat (length d2))).
Proof.
  intros H1 H2 N1. unfold float_of_numeral. rewrite split_period_run.
  2:{ eapply Forall_impl; [exact H1|]. intros x Hx. apply (ascii_digit_facts x Hx). }
  rewrite !digit_values_ascii by done.
  destruct d1 as [|c d1]; [done|]. cbn [app map]. by rewrite map_app, length_map.
Qed.

Lemma float_of_numeral_int neg d1 :
  Forall (fun c => ascii_digit c = true) d1 -> d1 <> [] ->
  float_of_numeral neg d1
  = Some (round_ratio neg (number_of (map digit_value d1)) 1).
Proof.
  intros H1 N1. unfold float_of_numeral.
  rewrite split_period_digits by (by apply ascii_digits_are_digits).
  rewrite app_nil_r, digit_values_ascii by done. cbn [digit_values].
  destruct d1 as [|c d1]; [done|]. by rewrite app_nil_r.
Qed.

Lemma py_float_unsigned c s :
  ascii_digit c = true -> py_float (c :: s) = float_of_numeral false (c :: s).
Proof.
  intros Hc. destruct (ascii_digit_facts c Hc) as (_ & Hm & Hp & _).
  unfold py_float. by rewrite Hm, Hp.
Qed.

Lemma py_float_digits ds s :
  Forall (fun c => ascii_digit c = true) ds -> ds <> [] ->
  py_float (ds ++ s) = float_of_numeral false (ds ++ s).
Proof.
  intros Hd Nd. destruct ds as [|c ds]; [done|]. cbn [app].
  apply py_float_unsigned. by inversion Hd.
Qed.

Lemma match_here_digits ds s :
  Forall (fun c => ascii_digit c = true) ds -> ds <> [] ->
  match_here (ds ++ s) = match_unsigned (ds ++ s).
Proof.
  intros Hd Nd. destruct ds as [|c ds]; [done|]. cbn [app].
  apply match_here_unsigned, ascii_digit_is_digit. by inversion Hd.
Qed.

Lemma ascii_absent ds k :
  (forall c, ascii_digit c = true -> N.eqb c k = false) ->
  Forall (fun c => ascii_digit c = true) ds ->
  Forall (fun c => N.eqb c k = false) ds.
Proof. intros Hk Hd. eapply Forall_impl; [exact Hd|]. exact Hk. Qed.

Lemma ascii_not_euro c : ascii_digit c = true -> N.eqb c EURO = false.
Proof. intros Hc. apply (ascii_digit_facts c Hc). Qed.

Lemma ascii_not_nbsp c : ascii_digit c = true -> N.eqb c NBSP = false.
Proof. intros Hc. apply (ascii_digit_facts c Hc). Qed.

Lemma ascii_not_comma c : ascii_digit c = true -> N.eqb c COMMA = false.
Proof. intros Hc. apply (ascii_digit_facts c Hc). Qed.

Lemma ascii_not_space c : ascii_digit c = true -> is_space c = false.
Proof. intros Hc. apply (ascii_digit_facts c Hc). Qed.

(** X16. Negative prices pass through: a number with a minus sign right
    before its digits, a comma as decimal separator and only currency signs
    and blanks around it gives the negative float nearest to it. *)
Theorem normalize_price_negative pre d1 d2 post :
  Forall (fun c => decoration c = true) pre ->
  Forall (fun c => decoration c = true) post ->
  Forall (fun c => ascii_digit c = true) d1 ->
  Forall (fun c => ascii_digit c = true) d2 ->
  d1 <> [] -> d2 <> [] ->
  normalize_price (pre ++ (MINUS :: d1 ++ COMMA :: d2) ++ post)
  = Some (round_ratio true (number_of (map digit_value (d1 ++ d2)))
                      (10 ^ Z.of_nat (length d2))).
Proof.
  intros Hpre Hpost H1 H2 N1 N2. unfold normalize_price.
  destruct (exists_last N2) as (d2' & c2 & E2).
  rewrite (strip_core pre (MINUS :: d1 ++ COMMA :: d2) post MINUS (d1 ++ COMMA :: d2)
             (MINUS :: d1 ++ COMMA :: d2') c2); try done.
  - change (MINUS :: d1 ++ COMMA :: d2) with ([MINUS] ++ d1 ++ [COMMA] ++ d2).
    rewrite !replace_app.
    rewrite (replace_absent COMMA _ d1), (replace_absent COMMA _ d2)
      by (eapply ascii_absent; [apply ascii_not_comma|done]).
    change (replace COMMA [PERIOD] [MINUS] ++ d1 ++ replace COMMA [PERIOD] [COMMA] ++ d2)
      with (MINUS :: d1 ++ PERIOD :: d2).
    rewrite (re_search_head _ (MINUS :: d1 ++ PERIOD :: d2)).
    + unfold py_float. rewrite N.eqb_refl. by rewrite float_of_numeral_frac.
    + apply match_here_signed.
      pose proof (match_unsigned_frac d1 d2 [] N1 (ascii_digits_are_digits _ H1)
                    N2 (ascii_digits_are_digits _ H2) I) as Hm.
      by rewrite app_nil_r in Hm.
  - constructor; [done|]. apply Forall_app. split; [by eapply ascii_absent; [apply ascii_not_euro|]|].
    constructor; [done|]. by eapply ascii_absent; [apply ascii_not_euro|].
  - constructor; [done|]. apply Forall_app. split; [by eapply ascii_absent; [apply ascii_not_nbsp|]|].
    constructor; [done|]. by eapply ascii_absent; [apply ascii_not_nbsp|].
  - rewrite E2. reassoc.
  - apply ascii_not_space. rewrite E2 in H2. apply Forall_app in H2 as [_ H2].
    by inversion H2.
Qed.

(** X17. A whole number of euros: digits alone between currency signs and
    blanks give the float nearest to that integer. *)
Theorem normalize_price_integer pre d1 post :
  Forall (fun c => decoration c = true) pre ->
  Forall (fun c => decoration c = true) post ->
  Forall (fun c => ascii_digit c = true) d1 ->
  d1 <> [] ->
  normalize_price (pre ++ d1 ++ post)
  = Some (round_ratio false (number_of (map digit_value d1)) 1).
Proof.
  intros Hpre Hpost H1 N1. unfold normalize_price.
  destruct (exists_last N1) as (d1' & c1 & E1).
  destruct d1 as [|b tl] eqn:Ed; [done|]. rewrite <- Ed in *.
  assert (Hb : ascii_digit b = true) by (rewrite Ed in H1; by inversion H1).
  rewrite (strip_core pre d1 post b tl d1' c1); try done.
  - rewrite (replace_absent COMMA _ d1)
      by (eapply ascii_absent; [apply ascii_not_comma|done]).
    rewrite (re_search_head _ d1).
    + rewrite Ed, py_float_unsigned, <- Ed by done. by rewrite float_of_numeral_int.
    + rewrite Ed, match_here_unsigned, <- Ed by (by apply ascii_digit_is_digit).
      apply match_unsigned_int; [done|by apply ascii_digits_are_digits].
  - by eapply ascii_absent; [apply ascii_not_euro|].
  - by eapply ascii_absent; [apply ascii_not_nbsp|].
  - by apply ascii_not_space.
  - apply ascii_not_space. rewrite E1 in H1. apply Forall_app in H1 as [_ H1].
    by inversion H1.
Qed.

(** X18. Grouped thousands are misread. In a price written with a period
    between the thousands and a comma before the cents (1.234,50), the comma
    becomes a second period and the pattern stops before it: the result is
    the number made of the digits around the first period (1.234), and the
    digits after the comma are dropped. *)
Theorem normalize_price_grouped pre d1 d2 d3 post :
  Forall (fun c => decoration c = true) pre ->
  Forall (fun c => decoration c = true) post ->
  Forall (fun c => ascii_digit c = true) d1 ->
  Forall (fun c => ascii_digit c = true) d2 ->
  Forall (fun c => ascii_digit c = true) d3 ->
  d1 <> [] -> d2 <> [] -> d3 <> [] ->
  normalize_price (pre ++ (d1 ++ PERIOD :: d2 ++ COMMA :: d3) ++ post)
  = Some (round_ratio false (number_of (map digit_value (d1 ++ d2)))
                      (10 ^ Z.of_nat (length d2))).
Proof.
  intros Hpre Hpost H1 H2 H3 N1 N2 N3. unfold normalize_price.
  destruct (exists_last N3) as (d3' & c3 & E3).
  destruct d1 as [|b tl] eqn:Ed; [done|]. rewrite <- Ed in *.
  assert (Hb : ascii_digit b = true) by (rewrite Ed in H1; by inversion H1).
  rewrite (strip_core pre (d1 ++ PERIOD :: d2 ++ COMMA :: d3) post b
             (tl ++ PERIOD :: d2 ++ COMMA :: d3)
             (d1 ++ PERIOD :: d2 ++ COMMA :: d3') c3); try done.
  - change (d1 ++ PERIOD :: d2 ++ COMMA :: d3)
      with (d1 ++ [PERIOD] ++ d2 ++ [COMMA] ++ d3).
    rewrite !replace_app.
    rewrite (replace_absent COMMA _ d1), (replace_absent COMMA _ d2),
      (replace_absent COMMA _ d3)
      by (eapply ascii_absent; [apply ascii_not_comma|done]).
    change (d1 ++ replace COMMA [PERIOD] [PERIOD] ++ d2
               ++ replace COMMA [PERIOD] [COMMA] ++ d3)
      with (d1 ++ PERIOD :: d2 ++ PERIOD :: d3).
    rewrite (re_search_head _ (d1 ++ PERIOD :: d2)).
    + rewrite py_float_digits by done. by rewrite float_of_numeral_frac.
    + rewrite match_here_digits by done.
      apply match_unsigned_frac; try done; try (by apply ascii_digits_are_digits).
      apply is_digit_period.
  - apply Forall_app. split; [by eapply ascii_absent; [apply ascii_not_euro|]|].
    constructor; [done|]. apply Forall_app.
    split; [by eapply ascii_absent; [apply ascii_not_euro|]|].
    constructor; [done|]. by eapply ascii_absent; [apply ascii_not_euro|].
  - apply Forall_app. split; [by eapply ascii_absent; [apply ascii_not_nbsp|]|].
    constructor; [done|]. apply Forall_app.
    split; [by eapply ascii_absent; [apply ascii_not_nbsp|]|].
    constructor; [done|]. by eapply ascii_absent; [apply ascii_not_nbsp|].
  - by rewrite Ed.
  - rewrite E3. reassoc.
  - by apply ascii_not_space.
  - apply ascii_not_space. rewrite E3 in H3. apply Forall_app in H3 as [_ H3].
    by inversion H3.
Qed.

End PriceMore.

(* ===================================================================== *)
(** * The price normalizer on a number with a comma                       *)
(* ===================================================================== *)

Section PriceShape.
Context `{UnicodeData}.

(** ** Trimming around a core that is not blank at its ends *)

Lemma lstrip_app_head a b x :
  is_space b = false -> lstrip (a ++ b :: x) = lstrip a ++ b :: x.
Proof.
  intros Hb. induction a as [|c a IH]; cbn [app lstrip].
  - by rewrite Hb.
  - by destruct (is_space c).
Qed.

Lemma rstrip_app_last x c b :
  is_space c = false -> rstrip ((x ++ [c]) ++ b) = (x ++ [c]) ++ rstrip b.
Proof.
  intros Hc. unfold rstrip. rewrite rev_app_distr, rev_unit.
  rewrite lstrip_app_head by done.
  rewrite rev_app_distr. cbn [rev]. by rewrite rev_involutive.
Qed.

Lemma strip_around a core post b tl init c :
  core = b :: tl -> core = init ++ [c] ->
  is_space b = false -> is_space c = false ->
  strip (a ++ core ++ post) = lstrip a ++ core ++ rstrip post.
Proof.
  intros Hb Hc Bb Bc. unfold strip. rewrite Hb at 1. cbn [app].
  rewrite lstrip_app_head by done. rewrite app_comm_cons, <- Hb.
  rewrite Hc. replace (lstrip a ++ (init ++ [c]) ++ post)
    with (((lstrip a ++ init) ++ [c]) ++ post) by reassoc.
  rewrite rstrip_app_last by done. reassoc.
Qed.

Lemma rstrip_prefix s : exists t, s = rstrip s ++ t.
Proof.
  assert (Hl : forall x, exists ws, x = ws ++ lstrip x).
  { induction x as [|c x [ws IH]]; [by exists []|]. cbn [lstrip].
    destruct (is_space c); [|by exists []]. exists (c :: ws). cbn [app]. by rewrite <- IH. }
  destruct (Hl (rev s)) as [ws Hws]. exists (rev ws). unfold rstrip.
  rewrite <- rev_app_distr, <- Hws. by rewrite rev_involutive.
Qed.

(** ** What the cleaning steps do to the text after the number *)

Lemma starts_without_digit_replace old x s :
  is_digit x = false ->
  starts_without_digit s -> starts_without_digit (replace old [x] s).
Proof.
  intros Hx. destruct s as [|c s]; [done|]. unfold replace.
  cbn [flat_map starts_without_digit]. intros Hc. by destruct (N.eqb c old).
Qed.

Lemma starts_without_digit_rstrip s :
  starts_without_digit s -> starts_without_digit (rstrip s).
Proof.
  destruct (rstrip_prefix s) as [t Ht]. destruct (rstrip s) as [|c r]; [done|].
  rewrite Ht. by cbn [app starts_without_digit].
Qed.

(** ** What they do to the text before it *)

Lemma ends_with_minus_cons c c' s :
  ends_with_minus (c :: c' :: s) = ends_with_minus (c' :: s).
Proof. unfold ends_with_minus. by rewrite last_cons_cons. Qed.

Lemma ends_with_minus_replace old x s :
  N.eqb old MINUS = false -> N.eqb x MINUS = false ->
  ends_with_minus (replace old [x] s) = ends_with_minus s.
Proof.
  intros Hold Hx. induction s as [|c s IH]; [done|].
  assert (Hhd : forall c0 r, replace old [x] (c0 :: r)
                             = (if N.eqb c0 old then x else c0) :: replace old [x] r).
  { intros c0 r. unfold replace. cbn [flat_map]. by destruct (N.eqb c0 old). }
  destruct s as [|c' s].
  - rewrite Hhd. unfold ends_with_minus. cbn.
    destruct (N.eqb c old) eqn:Hc; [|done].
    apply N.eqb_eq in Hc as ->. by rewrite Hx, Hold.
  - rewrite Hhd in IH. rewrite !Hhd, !ends_with_minus_cons. exact IH.
Qed.

Lemma ends_with_minus_lstrip s : ends_with_minus (lstrip s) = ends_with_minus s.
Proof.
  induction s as [|c s IH]; [done|]. cbn [lstrip].
  destruct (is_space c) eqn:Hc; [|done]. rewrite IH.
  destruct s as [|c' s]; [|by rewrite ends_with_minus_cons].
  unfold ends_with_minus. cbn. symmetry. apply N.eqb_neq. intros ->. discriminate.
Qed.

(** ** The first match after a text without digits *)

Lemma re_search_after pre x d x' m :
  Forall (fun c => is_digit c = false) pre ->
  x = d :: x' -> is_digit d = true ->
  match_unsigned x = Some m ->
  re_search (pre ++ x) = Some (if ends_with_minus pre then MINUS :: m else m).
Proof.
  intros Hpre -> Hd Hm. induction Hpre as [|c pre Hc Hpre IH].
  - cbn [app]. apply re_search_head. by rewrite match_here_unsigned.
  - cbn [app]. rewrite re_search_cons. destruct pre as [|c' pre].
    + cbn [app] in *. unfold match_here. unfold ends_with_minus. cbn [last].
      destruct (N.eqb c MINUS); [by rewrite Hm|].
      by rewrite (match_unsigned_none (c :: d :: x')), IH.
    + rewrite ends_with_minus_cons, <- IH.
      assert (Hc' : is_digit c' = false) by (by inversion Hpre).
      unfold match_here. cbn [app].
      rewrite (match_unsigned_none (c' :: pre ++ d :: x')) by done.
      rewrite (match_unsigned_none (c :: c' :: pre ++ d :: x')) by done.
      by destruct (N.eqb c MINUS).
Qed.

(** ** Digits of any script *)

Lemma digit_not_comma c : is_digit c = true -> N.eqb c COMMA = false.
Proof.
  intros Hc. apply N.eqb_neq. intros ->. by rewrite is_digit_ascii in Hc.
Qed.

Lemma digit_values_decimal ds :
  Forall (fun c => is_digit c = true) ds ->
  digit_values ds = Some (map decimal_value ds).
Proof.
  induction 1 as [|c ds Hc _ IH]; [done|]. cbn [digit_values map].
  rewrite IH. unfold decimal_value, is_digit in *. by destruct (decimal c).
Qed.

Lemma float_of_numeral_decimal neg d1 d2 :
  Forall (fun c => is_digit c = true) d1 ->
  Forall (fun c => is_digit c = true) d2 ->
  d1 <> [] ->
  float_of_numeral neg (d1 ++ PERIOD :: d2)
  = Some (round_ratio neg (number_of (map decimal_value (d1 ++ d2)))
                      (10 ^ Z.of_nat (length d2))).
Proof.
  intros H1 H2 N1. unfold float_of_numeral. rewrite split_period_run.
  2:{ eapply Forall_impl; [exact H1|]. intros x Hx. apply (digit_not_punctuation x Hx). }
  rewrite !digit_values_decimal by done.
  destruct d1 as [|c d1]; [done|]. cbn [app map]. by rewrite map_app, length_map.
Qed.

Lemma digits_absent (ds : list N) k :
  (forall c, is_digit c = true -> N.eqb c k = false) ->
  Forall (fun c => is_digit c = true) ds -> Forall (fun c => N.eqb c k = false) ds.
Proof. intros Hk Hd. eapply Forall_impl; [exact Hd|]. exact Hk. Qed.

(** C4, as the code has it. Take a price text whose first number is
    written as digits (of any script), a comma and digits, with nothing in
    between: no digit comes before it, and what follows it does not start
    with a digit once the currency signs are taken out. Whatever else
    stands around the number (currency signs, blanks, non-breaking spaces,
    words), [normalize_price] returns the float nearest to that number,
    negated when a minus sign stands right before the digits, currency
    signs not counted. It takes the currency signs out, turns the
    non-breaking spaces into spaces, trims the blanks at both ends, turns
    the commas into periods, and converts the first number the pattern
    finds. *)
Theorem normalize_price_decorated pre d1 d2 post :
  digits_apart ->
  Forall (fun c => is_digit c = false) pre ->
  Forall (fun c => is_digit c = true) d1 -> d1 <> [] ->
  Forall (fun c => is_digit c = true) d2 -> d2 <> [] ->
  starts_without_digit (replace EURO [] post) ->
  normalize_price (pre ++ d1 ++ COMMA :: d2 ++ post)
  = Some (round_ratio (minus_before pre)
                      (number_of (map decimal_value (d1 ++ d2)))
                      (10 ^ Z.of_nat (length d2))).
Proof.
  intros Hapart Hpre H1 N1 H2 N2 Hpost.
  assert (Euro : forall c, is_digit c = true -> N.eqb c EURO = false).
  { intros c Hc. apply Hapart in Hc. unfold decoration in Hc.
    by apply orb_false_elim in Hc as [-> _]. }
  assert (Blank : forall c, is_digit c = true -> is_space c = false).
  { intros c Hc. apply Hapart in Hc. unfold decoration in Hc.
    by apply orb_false_elim in Hc as [_ ->]. }
  assert (Nbsp : forall c, is_digit c = true -> N.eqb c NBSP = false).
  { intros c Hc. apply N.eqb_neq. intros ->. by apply Blank in Hc. }
  assert (Hperiod : is_digit PERIOD = false) by (by rewrite is_digit_ascii).
  assert (Hspace : is_digit SPACE = false) by (by rewrite is_digit_ascii).
  unfold normalize_price.
  (* the text after the first two steps *)
  change (COMMA :: d2 ++ post) with ([COMMA] ++ d2 ++ post).
  rewrite !replace_app.
  rewrite (replace_absent EURO [] d1), (replace_absent EURO [] d2)
    by (by eapply digits_absent).
  rewrite (replace_absent NBSP _ d1), (replace_absent NBSP _ d2)
    by (by eapply digits_absent).
  change (replace NBSP [SPACE] (replace EURO [] [COMMA])) with [COMMA].
  set (a := replace NBSP [SPACE] (replace EURO [] pre)).
  set (b := replace NBSP [SPACE] (replace EURO [] post)).
  (* trimming *)
  destruct d1 as [|c1 t1] eqn:E1; [done|]. rewrite <- E1 in *.
  destruct (exists_last N2) as (i2 & c2 & E2).
  assert (B1 : is_space c1 = false) by (apply Blank; rewrite E1 in H1; by inversion H1).
  assert (B2 : is_space c2 = false).
  { apply Blank. rewrite E2 in H2. apply Forall_app in H2 as [_ H2]. by inversion H2. }
  replace (a ++ d1 ++ [COMMA] ++ d2 ++ b) with (a ++ (d1 ++ COMMA :: d2) ++ b) by reassoc.
  rewrite (strip_around a (d1 ++ COMMA :: d2) b c1 (t1 ++ COMMA :: d2)
             (d1 ++ COMMA :: i2) c2); [|by rewrite E1|rewrite E2; reassoc|done|done].
  (* commas *)
  replace (lstrip a ++ (d1 ++ COMMA :: d2) ++ rstrip b)
    with (lstrip a ++ d1 ++ [COMMA] ++ d2 ++ rstrip b) by reassoc.
  rewrite !replace_app.
  rewrite (replace_absent COMMA _ d1), (replace_absent COMMA _ d2)
    by (eapply digits_absent; [apply digit_not_comma|done]).
  change (replace COMMA [PERIOD] [COMMA]) with [PERIOD].
  set (p := replace COMMA [PERIOD] (lstrip a)).
  set (q := replace COMMA [PERIOD] (rstrip b)).
  (* the match *)
  assert (Hp : Forall (fun c => is_digit c = false) p).
  { apply replace_Forall; [by repeat constructor|]. apply lstrip_Forall.
    apply replace_Forall; [by repeat constructor|]. by apply replace_Forall. }
  assert (Hq : starts_without_digit q).
  { apply starts_without_digit_replace; [done|]. apply starts_without_digit_rstrip.
    by apply starts_without_digit_replace. }
  assert (Hsign : ends_with_minus p = minus_before pre).
  { unfold p, a, minus_before.
    by rewrite ends_with_minus_replace, ends_with_minus_lstrip, ends_with_minus_replace. }
  assert (Hm : match_unsigned (d1 ++ [PERIOD] ++ d2 ++ q) = Some (d1 ++ PERIOD :: d2))
    by exact (match_unsigned_frac d1 d2 q N1 H1 N2 H2 Hq).
  rewrite (re_search_after p (d1 ++ [PERIOD] ++ d2 ++ q) c1
             (t1 ++ [PERIOD] ++ d2 ++ q) (d1 ++ PERIOD :: d2));
    [|done|by rewrite E1|rewrite E1 in H1; by inversion H1|done].
  rewrite Hsign. destruct (minus_before pre).
  - unfold py_float. rewrite N.eqb_refl. by rewrite float_of_numeral_decimal.
  - assert (Hc1 : is_digit c1 = true) by (rewrite E1 in H1; by inversion H1).
    destruct (digit_not_punctuation c1 Hc1) as (Hmi & Hpl & _).
    unfold py_float. rewrite E1 at 1. cbn [app]. rewrite Hmi, Hpl.
    by rewrite float_of_numeral_decimal.
Qed.

End PriceShape.

(* ===================================================================== *)
(** * Further properties of the page parser                               *)
(* ===================================================================== *)

Section ParseProps.
Context `{UnicodeData} {node : Type} `{Dom node}.

Lemma normalize_price_empty : normalize_price [] = None.
Proof.
  unfold normalize_price. cbn [replace flat_map strip rstrip lstrip rev].
  by rewrite re_search_none.
Qed.

(** X19. The page parser never drops a card: it returns one card per card
    container, at the same position, and none for a page without
    containers. A container in which the three selectors find nothing
    still gives a card, with an empty name, no price and an empty image
    address. *)
Theorem parse_cards_keeps_every_card (soup : node) (sel : Selectors.t) :
  length (parse_cards soup sel) = length (select soup (Selectors.card sel)) /\
  (select soup (Selectors.card sel) = [] -> parse_cards soup sel = []) /\
  (forall i card_node,
     nth_error (select soup (Selectors.card sel)) i = Some card_node ->
     exists card,
       nth_error (parse_cards soup sel) i = Some card /\
       (select card_node (Selectors.name sel) = [] -> name card = []) /\
       (select card_node (Selectors.price sel) = [] -> price card = None) /\
       (select card_node (Selectors.image sel) = [] -> image_url card = [])).
Proof.
  unfold parse_cards. split; [apply length_map|]. split; [by intros ->|].
  intros i card_node Hi. eexists. split; [by apply map_nth_error|]. cbn [name price image_url].
  unfold extract_text, extract_image, select_one.
  split; [by intros ->|]. split; [|by intros ->].
  intros ->. apply normalize_price_empty.
Qed.

End ParseProps.

(* ===================================================================== *)
(** * The properties on the example site                                  *)
(* ===================================================================== *)

Import Html.

(** The crawl of the three example pages returns their four cards. *)
Lemma fetch_cards_three_pages_witness :
  exists cards w',
    fetch_cards E3 3 u1 selectors one_second None empty_world = (Ok cards, w') /\
    fetches (log w') = [u1; u2; u3] /\
    map name cards = [py "Pikachu"; py "Mew"; py "Eevee"; py "Snorlax"] /\
    length cards = 4%nat.
Proof.
  destruct (fetch_cards_three_pages E3 0 selectors one_second u1 u2 u3
              200 200 200 page1 page2 page3 empty_world)
    as (cards & w' & Hrun & -> & Hf & -> & _ & Hlen); try reflexivity.
  eexists _, _. split; [exact Hrun|]. split; [exact Hf|]. split; reflexivity.
Defined.

(** With a limit of two pages the third address is never requested. *)
Lemma fetch_cards_page_limit_witness :
  fetch_cards E3 2 u1 selectors one_second (Some 2) empty_world
    = (Ok (parse_cards page1 selectors ++ parse_cards page2 selectors),
       logged empty_world [Fetch u1; Sleep one_second; Fetch u2]) /\
  fetch_cards E3 1 u1 selectors one_second (Some 1) empty_world
    = (Ok (parse_cards page1 selectors), logged empty_world [Fetch u1]).
Proof.
  destruct (fetch_cards_page_limit E3 0 selectors one_second u1 u2 u3
              200 200 200 page1 page2 page3 empty_world)
    as (H2 & H1 & _); try reflexivity.
  split; [exact H2 | exact H1].
Defined.

(** A site that answers 500 to the first request: nothing is written. *)
Lemma first_page_failure_aborts_witness :
  let E := example_env (fun _ => Response 500 (Text [])) true in
  exists e,
    main E 1 example_args empty_world = (Raise e, logged empty_world [Fetch u1]) /\
    files (snd (main E 1 example_args empty_world)) = ∅.
Proof.
  intros E.
  destruct (first_page_failure_aborts E 0 example_args empty_world)
    as (e & _ & Hmain & Hfiles).
  - reflexivity.
  - right. exists 500, (Text []). split; reflexivity.
  - exists e. split; [exact Hmain | exact Hfiles].
Defined.

(** A first page answered with status 304, which is outside 200-299 and
    for which [raise_for_status] does not raise: the run goes on, returns
    no card and writes the CSV file with its header. *)
Lemma status_304_is_not_a_failure :
  let E := example_env (fun _ => Response 304 (Text [])) true in
  ~ (200 <= 304 < 300) /\
  site E (url example_args) = Response 304 (Text []) /\
  fst (fetch_cards E 1 (url example_args) (args_selectors example_args)
         (delay example_args) (max_pages example_args) empty_world) = Ok [] /\
  fst (main E 1 example_args empty_world) = Ok tt /\
  files (snd (main E 1 example_args empty_world)) !! py "cards.csv"
    = Some (py "name,price,image_url" ++ [CR; LF]).
Proof.
  intros E. split; [lia|]. split; [reflexivity|]. split; [reflexivity|].
  split; vm_compute; reflexivity.
Defined.

(** A spreadsheet identifier without credentials: the run stops with
    [SystemExit] and the CSV file of the four cards is in place. *)
Lemma sheet_misconfiguration_keeps_csv_witness :
  let args := with_sheet example_args (py "sheet-1") None in
  exists w',
    main E3 3 args empty_world = (Raise SystemExit, w') /\
    files w' !! py "cards.csv"
      = Some (py "name,price,image_url" ++ [CR; LF]
              ++ py "Pikachu,12.5,/img/25.png" ++ [CR; LF]
              ++ py "Mew,,/img/151.png" ++ [CR; LF]
              ++ py "Eevee,3.0,/img/133.png" ++ [CR; LF]
              ++ py "Snorlax,55.75,/img/143.png" ++ [CR; LF]) /\
    sheets w' = ∅.
Proof.
  intros args.
  edestruct (sheet_misconfiguration_keeps_csv E3 3 args (py "sheet-1"))
    as (w' & Hmain & _ & Hfile & Hsheets & _).
  - vm_compute. reflexivity.
  - reflexivity.
  - vm_compute. reflexivity.
  - reflexivity.
  - reflexivity.
  - left. reflexivity.
  - exists w'. split; [exact Hmain|]. split; [|exact Hsheets].
    refine (eq_trans Hfile _). vm_compute. reflexivity.
Defined.


(** An image tag whose [src] attribute is there but empty, with a
    [data-src] attribute: the address returned is the one of [data-src],
    not the value of [src]. *)
Lemma empty_src_falls_back :
  let img := Element (py "img") [(py "src", []); (py "data-src", py "/lazy.png")] [] in
  let card_node := Element (py "div") [] [img] in
  select card_node (py "img") = [img] /\
  get img (py "src") = Some [] /\
  extract_image card_node (py "img") = py "/lazy.png" /\
  Some (extract_image card_node (py "img")) <> get img (py "src").
Proof.
  intros img card_node. split; [reflexivity|]. split; [reflexivity|].
  split; [reflexivity|]. vm_compute. discriminate.
Defined.

(** In the two example databases no digit is a currency sign or a blank. *)
Lemma ascii_digits_apart : @digits_apart ascii_data.
Proof.
  intros c Hc.
  assert (Ha : ascii_digit c = true).
  { unfold is_digit in Hc. cbn [decimal ascii_data] in Hc.
    unfold ascii_decimal in Hc. unfold ascii_digit. by destruct (andb _ _). }
  unfold decoration. by rewrite (ascii_not_euro c Ha), (ascii_not_space c Ha).
Qed.

Lemma two_scripts_apart : @digits_apart two_scripts.
Proof.
  intros c Hc. unfold is_digit in Hc. cbn [decimal two_scripts] in Hc.
  unfold two_scripts_decimal in Hc.
  destruct (andb (48 <=? c)%N (c <=? 57)%N) eqn:Ha.
  { unfold decoration.
    by rewrite (ascii_not_euro c Ha), (ascii_not_space c Ha). }
  destruct (andb (1632 <=? c)%N (c <=? 1641)%N) eqn:Hb; [|discriminate].
  apply andb_prop in Hb as [H1 H2]. apply N.leb_le in H1, H2.
  assert (Hc' : In c [1632; 1633; 1634; 1635; 1636; 1637; 1638; 1639; 1640; 1641]%N)
    by (cbn [In]; lia).
  cbn [In] in Hc'. by repeat destruct Hc' as [<- | Hc'].
Qed.

(** The price text of the first example card is 12.5, that is 25/2; so
    are the same number with words around it and written with Arabic-Indic
    digits; a minus sign before the currency sign gives -12.5. *)
Lemma normalize_price_decorated_witness :
  normalize_price (py "12,50 " ++ [EURO]) = Some twelve_and_a_half /\
  normalize_price (py "12,50 " ++ [EURO] ++ py " TTC") = Some twelve_and_a_half /\
  normalize_price (py "Prix : 12,50 " ++ [EURO]) = Some twelve_and_a_half /\
  normalize_price (py "Prix -" ++ [EURO] ++ py "12,50")
    = Some (S754_finite true 7036874417766400 (-49)) /\
  @normalize_price two_scripts ([EURO; NBSP] ++ [1633; 1634; COMMA; 1637; 1632]%N)
    = Some twelve_and_a_half /\
  float_is twelve_and_a_half 25 2.
Proof.
  split; [|split; [|split; [|split; [|split]]]].
  - refine (eq_trans
              (normalize_price_decorated [] (py "12") (py "50") [SPACE; EURO]
                 ascii_digits_apart _ _ _ _ _ _) _);
      solve [repeat constructor | discriminate | vm_compute; reflexivity].
  - refine (eq_trans
              (normalize_price_decorated [] (py "12") (py "50")
                 ([SPACE; EURO] ++ py " TTC") ascii_digits_apart _ _ _ _ _ _) _);
      solve [repeat constructor | discriminate | vm_compute; reflexivity].
  - refine (eq_trans
              (normalize_price_decorated (py "Prix : ") (py "12") (py "50")
                 [SPACE; EURO] ascii_digits_apart _ _ _ _ _ _) _);
      solve [repeat constructor | discriminate | vm_compute; reflexivity].
  - refine (eq_trans
              (normalize_price_decorated (py "Prix -" ++ [EURO]) (py "12") (py "50")
                 [] ascii_digits_apart _ _ _ _ _ _) _);
      solve [repeat constructor | discriminate | vm_compute; reflexivity].
  - refine (eq_trans
              (@normalize_price_decorated two_scripts [EURO; NBSP] [1633; 1634]%N
                 [1637; 1632]%N [] two_scripts_apart _ _ _ _ _ _) _);
      solve [repeat constructor | discriminate | vm_compute; reflexivity].
  - reflexivity.
Defined.

(** A price above a thousand, written the French way with a non-breaking
    space between the thousands and the hundreds. It holds the currency
    sign and a comma as decimal separator. The script turns the
    non-breaking space into a space and stops the number there: the result
    is 1.0, where taking the non-breaking space out gives 1234.5. *)
Lemma nbsp_inside_number :
  let raw := py "1" ++ [NBSP] ++ py "234,50 " ++ [EURO] in
  normalize_price raw = Some (S754_finite false 4503599627370496 (-52)) /\
  float_is (S754_finite false 4503599627370496 (-52)) 1 1 /\
  normalize_price_as_described raw = Some (S754_finite false 5429388417957888 (-42)) /\
  float_is (S754_finite false 5429388417957888 (-42)) 2469 2 /\
  normalize_price raw <> Some twelve_and_a_half /\
  normalize_price raw <> normalize_price_as_described raw.
Proof.
  intros raw. repeat split; try reflexivity; vm_compute; intros; discriminate.
Defined.

(** A text without digits has no price. *)
Lemma normalize_price_absent_witness :
  normalize_price (py "N/A") = None /\ normalize_price [] = None.
Proof.
  split.
  - apply (normalize_price_absent (py "N/A")). repeat constructor.
  - apply (normalize_price_absent []). constructor.
Defined.


(** The same export, computed. *)
Example write_csv_read_example :
  Csv.read Csv.default_field_limit (csv_text E3 tricky_cards)
  = Some [ [py "name"; py "price"; py "image_url"];
           [py "Pikachu, the " ++ [QUOTE] ++ py "mouse" ++ [QUOTE]; py "12.5";
            py "/img/25.png"];
           [py "two" ++ [CR; LF] ++ py "lines" ++ [CR]; []; []] ].
Proof. vm_compute. reflexivity. Qed.

(** The fields of the first example card, and selectors that match
    nothing in it. *)
Lemma extract_fields_total_witness :
  let card_node := card_div (py "Pikachu") (py "12,50 " ++ [EURO]) (py "/img/25.png") in
  extract_image card_node (py "img") = py "/img/25.png" /\
  extract_text card_node (py "h2") = py "Pikachu" /\
  extract_text card_node (py "h3") = [] /\
  extract_image card_node (py "video") = [].
Proof.
  intros card_node.
  destruct (extract_fields_total card_node (py "img")) as [_ Himg].
  destruct (Himg (Element (py "img") [(py "src", py "/img/25.png")] []) [] eq_refl)
    as (_ & Hsrc & _).
  destruct (extract_fields_total card_node (py "h2")) as [_ Hname].
  destruct (Hname (Element (py "h2") [] [Text (py "Pikachu")]) [] eq_refl) as (Htext & _).
  destruct (extract_fields_total card_node (py "h3")) as [Hnone _].
  destruct (extract_fields_total card_node (py "video")) as [Hnone' _].
  split; [apply Hsrc; [reflexivity | discriminate]|].
  split; [rewrite Htext; reflexivity|].
  split; [apply Hnone | apply Hnone']; reflexivity.
Defined.

(** The link of the first example page, the third page without a link,
    and a link without an address. *)
Lemma find_next_page_spec_witness :
  find_next_page page1 selectors = Some u2 /\
  find_next_page page3 selectors = None /\
  find_next_page (Element (py "body") [] [Element (py "a") [] []; next_link u3]) selectors
    = None.
Proof.
  split; [|split].
  - apply (find_next_page_spec page1 selectors).
    exists (next_link u2), []. split; [reflexivity|]. split; [reflexivity|discriminate].
  - apply (find_next_page_spec page3 selectors). left. reflexivity.
  - apply (find_next_page_spec _ selectors). right.
    exists (Element (py "a") [] []), [next_link u3]. split; [reflexivity|].
    left. reflexivity.
Defined.

(** ** The further properties on the example site *)

Lemma three_pages_chain : chain E3 selectors [u1; u2; u3] [page1; page2; page3].
Proof.
  eapply chain_next; [reflexivity..|].
  eapply chain_next; [reflexivity..|].
  eapply chain_last; reflexivity.
Qed.

Lemma two_pages_chain : chain E3 selectors [u1; u2] [page1; page2].
Proof.
  eapply chain_next; [reflexivity..|]. eapply chain_last; reflexivity.
Qed.

(** A limit of zero on the example site: the three pages are requested
    and their four cards returned. *)
Lemma fetch_cards_zero_is_unbounded_witness :
  fetch_cards E3 (length [u1; u2; u3] + 0) u1 selectors one_second (Some 0) empty_world
  = (Ok (flat_map (fun p => parse_cards p selectors) [page1; page2; page3]),
     logged empty_world (crawl_log one_second [u1; u2; u3])) /\
  fetches (crawl_log one_second [u1; u2; u3]) = [u1; u2; u3] /\
  length (fetches (crawl_log one_second [u1; u2; u3])) = length [page1; page2; page3].
Proof.
  refine (proj1 (proj2 (fetch_cards_zero_is_unbounded E3 selectors one_second))
            0%nat [u1; u2; u3] [page1; page2; page3] u1 page3 empty_world
            three_pages_chain _ _ _ _).
  - reflexivity.
  - reflexivity.
  - reflexivity.
  - right. reflexivity.
Defined.

(** The same, computed: four cards from three requests. *)
Example zero_limit_example :
  fetch_cards E3 3 u1 selectors one_second (Some 0) empty_world
  = fetch_cards E3 3 u1 selectors one_second None empty_world /\
  option_map (map name)
    (match fst (fetch_cards E3 3 u1 selectors one_second (Some 0) empty_world) with
     | Ok cards => Some cards
     | _ => None
     end)
  = Some [py "Pikachu"; py "Mew"; py "Eevee"; py "Snorlax"] /\
  fetches (log (snd (fetch_cards E3 3 u1 selectors one_second (Some 0) empty_world)))
  = [u1; u2; u3].
Proof. repeat split; vm_compute; reflexivity. Qed.

(** The three example pages as a row of pages. *)
Lemma fetch_cards_whole_chain_witness :
  fetch_cards E3 (length [u1; u2; u3] + 0) u1 selectors one_second None empty_world
  = (Ok (flat_map (fun p => parse_cards p selectors) [page1; page2; page3]),
     logged empty_world (crawl_log one_second [u1; u2; u3])) /\
  fetches (crawl_log one_second [u1; u2; u3]) = [u1; u2; u3].
Proof.
  refine (fetch_cards_whole_chain E3 0 selectors one_second [u1; u2; u3]
            [page1; page2; page3] u1 page3 empty_world three_pages_chain _ _ _ _).
  - reflexivity.
  - reflexivity.
  - reflexivity.
  - right. reflexivity.
Defined.

(** The first two example pages under a limit of two. *)
Lemma fetch_cards_first_pages_witness :
  fetch_cards E3 (length [u1; u2] + 0) u1 selectors one_second
              (Some (Z.of_nat (length [u1; u2]))) empty_world
  = (Ok (flat_map (fun p => parse_cards p selectors) [page1; page2]),
     logged empty_world (crawl_log one_second [u1; u2])) /\
  length (fetches (crawl_log one_second [u1; u2])) = length [u1; u2].
Proof.
  refine (fetch_cards_first_pages E3 0 selectors one_second [u1; u2] [page1; page2]
            u1 empty_world two_pages_chain _ _).
  - reflexivity.
  - right. reflexivity.
Defined.

(** A limit of two on the example site. *)
Lemma fetch_cards_within_limit_witness :
  exists tr,
    snd (fetch_cards E3 5 u1 selectors one_second (Some 2) empty_world)
    = logged empty_world tr /\
    (length (fetches tr) <= Z.to_nat (Z.max 1 2))%nat.
Proof.
  refine (fetch_cards_within_limit E3 5 u1 selectors one_second 2 empty_world _).
  discriminate.
Defined.

(** The page that links to itself is crawled for ever. *)
Lemma fetch_cards_endless_witness :
  fst (fetch_cards (example_env loop_site true) 100 u1 selectors one_second None
         empty_world)
  = Running.
Proof.
  refine (fetch_cards_endless (example_env loop_site true) (fun u => truthy u = true)
            selectors one_second _ _ 100%nat u1 empty_world _).
  - intros u Hu. split; [exact Hu|].
    exists 200, loop_page, u1. repeat split; reflexivity.
  - reflexivity.
  - reflexivity.
Defined.

(** A negative delay on the example site. *)
Lemma fetch_cards_rejected_delay_witness :
  fetch_cards E3 1 u1 selectors minus_one_second None empty_world
  = (Raise SleepError, logged empty_world [Fetch u1; Sleep minus_one_second]) /\
  fetch_cards E3 1 u3 selectors minus_one_second None empty_world
  = (Ok (parse_cards page3 selectors), logged empty_world [Fetch u3]).
Proof.
  split.
  - refine (proj1 (fetch_cards_rejected_delay E3 0 selectors minus_one_second None
                     u1 200 page1 u2 empty_world _ _ _ _) _ _); reflexivity.
  - refine (proj2 (fetch_cards_rejected_delay E3 0 selectors minus_one_second None
                     u3 200 page3 u1 empty_world _ _ _ _) _); reflexivity.
Defined.

(** The export of the awkward cards replaces what the file held. *)
Lemma write_csv_overwrites_witness :
  exists w',
    write_csv E3 tricky_cards (py "cards.csv") empty_world = (Ok tt, w') /\
    files w' !! py "cards.csv" = Some (csv_text E3 tricky_cards) /\
    (forall other, other <> py "cards.csv" ->
                   files w' !! other = files empty_world !! other) /\
    console w' = console empty_world /\ log w' = log empty_world /\
    sheets w' = sheets empty_world /\
    (forall old,
       write_csv E3 tricky_cards (py "cards.csv")
                 (with_file empty_world (py "cards.csv") old) = (Ok tt, w')).
Proof.
  refine (write_csv_overwrites E3 tricky_cards (py "cards.csv") empty_world _ _).
  - reflexivity.
  - vm_compute. reflexivity.
Defined.

(** A name with a lone surrogate after one good card: the file is left
    with the header and the good card. *)
Lemma write_csv_failures_witness :
  write_csv E3 (firstn 1 tricky_cards ++ broken_card :: tricky_cards)
            (py "cards.csv") empty_world
  = (Raise UnicodeEncodeError,
     with_file empty_world (py "cards.csv") (csv_text E3 (firstn 1 tricky_cards))).
Proof.
  refine (proj2 (write_csv_failures E3 (py "cards.csv") empty_world)
            (firstn 1 tricky_cards) broken_card tricky_cards _ _ _).
  - reflexivity.
  - vm_compute. reflexivity.
  - vm_compute. reflexivity.
Defined.

(** A failing crawl on a site that answers 500. *)
Lemma main_crawl_failure_witness :
  let E := example_env (fun _ => Response 500 (Text [])) true in
  main E 1 example_args empty_world
    = (Raise (HTTPError 500), logged empty_world [Fetch u1]) /\
  files (logged empty_world [Fetch u1]) = files empty_world /\
  console (logged empty_world [Fetch u1]) = console empty_world /\
  sheets (logged empty_world [Fetch u1]) = sheets empty_world.
Proof.
  intros E.
  refine (main_crawl_failure E 1 example_args empty_world (HTTPError 500)
            (logged empty_world [Fetch u1]) _).
  reflexivity.
Defined.

(** The plain run on the example site. *)
Lemma main_exports_csv_witness :
  exists w',
    main E3 3 example_args empty_world = (Ok tt, w') /\
    files w' = <[output_csv example_args :=
                   csv_text E3 (flat_map (fun p => parse_cards p selectors)
                                         [page1; page2; page3])]>
                 (files empty_world) /\
    console w' = console empty_world ++ [Wrote 4 (output_csv example_args)] /\
    sheets w' = sheets empty_world.
Proof.
  refine (main_exports_csv E3 3 example_args
            (flat_map (fun p => parse_cards p selectors) [page1; page2; page3])
            empty_world
            (logged empty_world (crawl_log one_second [u1; u2; u3])) _ _ _ _).
  - vm_compute. reflexivity.
  - reflexivity.
  - vm_compute. reflexivity.
  - reflexivity.
Defined.

(** The run with a spreadsheet and credentials. *)
Lemma main_uploads_witness :
  let args := with_sheet example_args (py "sheet-1") (Some (py "key.json")) in
  let cards := flat_map (fun p => parse_cards p selectors) [page1; page2; page3] in
  exists w',
    main E3 3 args empty_world = (Ok tt, w') /\
    files w' = <[output_csv args := csv_text E3 cards]> (files empty_world) /\
    sheets w' = <[(py "sheet-1", worksheet args) := header :: map card_row cards]>
                  (sheets empty_world) /\
    console w' = console empty_world
                 ++ [Wrote (length cards) (output_csv args);
                     Uploaded (length cards) (py "sheet-1") (worksheet args)].
Proof.
  intros args cards.
  refine (main_uploads E3 3 args cards (py "sheet-1") (py "key.json") empty_world
            (logged empty_world (crawl_log one_second [u1; u2; u3]))
            _ _ _ _ _ _ _ _ _ _ _).
  - vm_compute. reflexivity.
  - reflexivity.
  - vm_compute. reflexivity.
  - reflexivity.
  - reflexivity.
  - reflexivity.
  - reflexivity.
  - reflexivity.
  - reflexivity.
  - reflexivity.
  - reflexivity.
Defined.

(** The same run when the service empties the worksheet and refuses the
    rows: the row of the earlier upload is lost. *)
Lemma main_upload_refused_witness :
  let args := with_sheet example_args (py "sheet-1") (Some (py "key.json")) in
  let cards := flat_map (fun p => parse_cards p selectors) [page1; page2; page3] in
  exists w',
    main E3_refusing 3 args old_sheet_world = (Raise SheetError, w') /\
    files w' !! output_csv args = Some (csv_text E3_refusing cards) /\
    sheets w' !! (py "sheet-1", worksheet args) = Some [] /\
    console w' = console old_sheet_world ++ [Wrote (length cards) (output_csv args)].
Proof.
  intros args cards.
  refine (main_upload_refused E3_refusing 3 args cards (py "sheet-1") (py "key.json")
            old_sheet_world
            (logged old_sheet_world (crawl_log one_second [u1; u2; u3]))
            _ _ _ _ _ _ _ _ _ _ _).
  - vm_compute. reflexivity.
  - reflexivity.
  - vm_compute. reflexivity.
  - reflexivity.
  - reflexivity.
  - reflexivity.
  - reflexivity.
  - reflexivity.
  - reflexivity.
  - reflexivity.
  - reflexivity.
Defined.

(** An upload of the awkward cards to a worksheet that holds an old row,
    with a service that refuses the rows: the worksheet ends up empty. *)
Lemma push_to_google_sheet_outcomes_witness :
  push_to_google_sheet E3_refusing tricky_cards (py "sheet-1") (py "Cartes")
                       (py "key.json") old_sheet_world
  = (Raise SheetError, with_rows old_sheet_world (py "sheet-1", py "Cartes") []).
Proof.
  refine (proj2 (proj2 (proj2
            (push_to_google_sheet_outcomes E3_refusing tricky_cards (py "sheet-1")
               (py "Cartes") (py "key.json") old_sheet_world))) _ _ _ _);
    reflexivity.
Defined.

(** The run without a start address. *)
Lemma main_empty_url_witness :
  (forall sel d mx, fetch_cards E3 3 [] sel d mx empty_world = (Ok [], empty_world)) /\
  (can_open E3 (output_csv no_url_args) = true ->
   google_sheet_id no_url_args = None ->
   exists w',
     main E3 3 no_url_args empty_world = (Ok tt, w') /\
     files w' !! output_csv no_url_args = Some (py "name,price,image_url" ++ [CR; LF]) /\
     log w' = log empty_world).
Proof.
  refine (main_empty_url E3 3 no_url_args empty_world _). reflexivity.
Defined.

(** A price text with a digit in the middle of words. *)
Lemma normalize_price_present_witness :
  exists x, normalize_price (py "about 7 euros") = Some x.
Proof.
  refine (normalize_price_present (py "about 7 euros") 55%N _ _).
  - cbn. tauto.
  - reflexivity.
Defined.

(** A refund of 12.5. *)
Lemma normalize_price_negative_witness :
  normalize_price ([] ++ (MINUS :: py "12" ++ COMMA :: py "50") ++ [SPACE; EURO])
  = Some (round_ratio true (number_of (map digit_value (py "12" ++ py "50")))
                      (10 ^ Z.of_nat (length (py "50")))).
Proof.
  refine (normalize_price_negative [] (py "12") (py "50") [SPACE; EURO] _ _ _ _ _ _);
    solve [repeat constructor | discriminate].
Defined.

(** Three euros. *)
Lemma normalize_price_integer_witness :
  normalize_price ([] ++ py "3" ++ [SPACE; EURO])
  = Some (round_ratio false (number_of (map digit_value (py "3"))) 1).
Proof.
  refine (normalize_price_integer [] (py "3") [SPACE; EURO] _ _ _ _);
    solve [repeat constructor | discriminate].
Defined.

(** 1.234,50 is read as 1.234. *)
Lemma normalize_price_grouped_witness :
  normalize_price ([] ++ (py "1" ++ PERIOD :: py "234" ++ COMMA :: py "50") ++ [SPACE; EURO])
  = Some (round_ratio false (number_of (map digit_value (py "1" ++ py "234")))
                      (10 ^ Z.of_nat (length (py "234")))).
Proof.
  refine (normalize_price_grouped [] (py "1") (py "234") (py "50") [SPACE; EURO]
            _ _ _ _ _ _ _ _);
    solve [repeat constructor | discriminate].
Defined.

(** The values of the three prices above. *)
Example other_prices_example :
  normalize_price (py "-12,50 " ++ [EURO]) = Some (S754_finite true 7036874417766400 (-49)) /\
  normalize_price (py "3 " ++ [EURO]) = Some (S754_finite false 6755399441055744 (-51)) /\
  float_is (S754_finite false 6755399441055744 (-51)) 3 1 /\
  normalize_price (py "1.234,50 " ++ [EURO]) = Some (S754_finite false 5557441940175192 (-52)) /\
  ~ float_is (S754_finite false 5557441940175192 (-52)) 2469 2.
Proof. repeat split; try (vm_compute; reflexivity). vm_compute. discriminate. Qed.

(** A limit of ten pages on the example site of three. *)
Lemma fetch_cards_limit_beyond_site_witness :
  fetch_cards E3 (length [u1; u2; u3] + 0) u1 selectors one_second (Some 10) empty_world
  = (Ok (flat_map (fun p => parse_cards p selectors) [page1; page2; page3]),
     logged empty_world (crawl_log one_second [u1; u2; u3])) /\
  fetch_cards E3 (length [u1; u2; u3] + 0) u1 selectors one_second (Some 10) empty_world
  = fetch_cards E3 (length [u1; u2; u3] + 0) u1 selectors one_second None empty_world.
Proof.
  refine (fetch_cards_limit_beyond_site E3 0 selectors one_second 10 [u1; u2; u3]
            [page1; page2; page3] u1 page3 empty_world three_pages_chain _ _ _ _ _).
  - reflexivity.
  - reflexivity.
  - reflexivity.
  - right. reflexivity.
  - vm_compute. discriminate.
Defined.

